(** * Message extraction for knowledge models: [scripts/extract-messages.py]

    A shallow embedding of the traversal extractor ([MessageExtractor]) and of
    the catalog builder ([build_pot]), followed by the properties of the
    specification that are settled on it.

    Python values are modelled as follows.
    - [str] is [string]; comparison of [str] in Python is lexicographic on
      code points, here [String.compare] on the characters.
    - A [uuid.UUID] is the [string] that [str()] gives for it, which is the
      only way the script uses it.
    - A field typed [str | None] is an [option string]; its truth value is
      [Some] of a non-empty string.
    - The registries [km.entities.*] are [gmap string _]: [dict.get] is the
      map lookup and yields [None] for an absent key.
    - [isinstance] tests on a node are optional facets of the node record: a
      facet is [Some] exactly when the node is an instance of that class. *)

From Stdlib Require Import ZArith Ascii String List Sorting.Sorted Sorting.Permutation.
From stdpp Require Import base option list sorting gmap strings fin_maps fin_sets.

#[local] Set Warnings "-clear-no-such-hyp".

Open Scope string_scope.
Open Scope list_scope.
Open Scope Z_scope.

(** ** Extracted messages *)

Record ExtractedMessage := {
  msgid : string;
  entity_type : string;
  entity_uuid : string;
  entity_attribute : string
}.

Definition path (m : ExtractedMessage) : string :=
  entity_type m +:+ ":" +:+ entity_uuid m +:+ ":" +:+ entity_attribute m.

Definition line (m : ExtractedMessage) : Z := 0.

(** ** The knowledge model ([dsw.models.knowledge_model.flat]) *)

Record Choice := {
  choice_uuid : string;
  choice_label : string
}.

Record Answer := {
  answer_uuid : string;
  answer_label : string;
  answer_advice : option string;
  follow_up_uuids : list string
}.

(** [as_list_question], [as_multi_choice_question] and
    [as_options_question] are the three [isinstance] tests of
    [_extract_messages_question]; each carries the identifier list that the
    matching class declares. *)
Record Question := {
  question_uuid : string;
  question_title : string;
  question_text : option string;
  as_list_question : option (list string);
  as_multi_choice_question : option (list string);
  as_options_question : option (list string);
  reference_uuids : list string
}.

(** [as_url_reference] holds the label of a [URLReference],
    [as_cross_reference] the description of a [CrossReference]. *)
Record Reference := {
  reference_uuid : string;
  as_url_reference : option string;
  as_cross_reference : option string
}.

Record Chapter := {
  chapter_uuid : string;
  chapter_title : string;
  chapter_text : option string;
  question_uuids : list string
}.

Record Phase := {
  phase_uuid : string;
  phase_title : string;
  phase_description : option string
}.

Record Tag := {
  tag_uuid : string;
  tag_name : string;
  tag_description : option string
}.

Record Metric := {
  metric_uuid : string;
  metric_title : string;
  metric_description : option string
}.

Record ResourcePage := {
  resource_page_uuid : string;
  resource_page_title : string;
  resource_page_content : option string
}.

Record ResourceCollection := {
  resource_collection_uuid : string;
  resource_collection_title : string;
  resource_page_uuids : list string
}.

Record Entities := {
  questions : gmap string Question;
  choices : gmap string Choice;
  answers : gmap string Answer;
  references : gmap string Reference;
  chapters : gmap string Chapter;
  phases : gmap string Phase;
  tags : gmap string Tag;
  metrics : gmap string Metric;
  resource_collections : gmap string ResourceCollection;
  resource_pages : gmap string ResourcePage
}.

Record KnowledgeModel := {
  chapter_uuids : list string;
  tag_uuids : list string;
  phase_uuids : list string;
  metric_uuids : list string;
  resource_collection_uuids : list string;
  entities : Entities
}.

(** ** Effects of the visitors

    A visitor appends to [self.messages] and may fail.  The only failure the
    script itself can produce is the [AttributeError] of reading an attribute
    of [None], the value [dict.get] returns for an absent key.  [OutOfFuel]
    stands for a traversal that needs a deeper nesting of calls than the
    budget given: the registry can describe cyclic models, on which the
    Python recursion does not end normally.  The message list is kept in every
    outcome, as the list object is mutated in place. *)

Inductive exn :=
| AttributeError (type_name attribute : string).

Definition exn_message (e : exn) : string :=
  match e with
  | AttributeError ty attr =>
      "'" +:+ ty +:+ "' object has no attribute '" +:+ attr +:+ "'"
  end.

Inductive outcome (A : Type) :=
| Ok (a : A)
| Raise (e : exn)
| OutOfFuel.
Arguments Ok {A} a.
Arguments Raise {A} e.
Arguments OutOfFuel {A}.

Definition M (A : Type) : Type :=
  list ExtractedMessage -> outcome A * list ExtractedMessage.

Definition ret {A} (a : A) : M A := fun msgs => (Ok a, msgs).

Definition bind {A B} (m : M A) (k : A -> M B) : M B :=
  fun msgs =>
    match m msgs with
    | (Ok a, msgs') => k a msgs'
    | (Raise e, msgs') => (Raise e, msgs')
    | (OutOfFuel, msgs') => (OutOfFuel, msgs')
    end.

Definition raise {A} (e : exn) : M A := fun msgs => (Raise e, msgs).

Definition out_of_fuel {A} : M A := fun msgs => (OutOfFuel, msgs).

(** [self.messages.append(m)] *)
Definition append (m : ExtractedMessage) : M unit :=
  fun msgs => (Ok tt, msgs ++ [m]).

Notation "x <- m ;; k" := (bind m (fun x => k))
  (at level 100, m at next level, right associativity).
Notation "m ;; k" := (bind m (fun _ => k))
  (at level 100, right associativity).

(** [for x in xs: body(x)] *)
Fixpoint for_each {A} (xs : list A) (body : A -> M unit) : M unit :=
  match xs with
  | [] => ret tt
  | x :: xs' => body x ;; for_each xs' body
  end.

(** The first attribute read on a node: [None] has no attributes. *)
Definition node {N} (obj : option N) (first_attribute : string) : M N :=
  match obj with
  | Some n => ret n
  | None => raise (AttributeError "NoneType" first_attribute)
  end.

(** [if value: body(value)] for a value of type [str | None]. *)
Definition if_truthy (value : option string) (body : string -> M unit) : M unit :=
  match value with
  | Some (String c s) => body (String c s)
  | _ => ret tt
  end.

(** [if isinstance(obj, cls): body], with the facet of that class. *)
Definition if_instance {F} (facet : option F) (body : F -> M unit) : M unit :=
  match facet with
  | Some f => body f
  | None => ret tt
  end.

(** ** The traversal extractor *)

Section MessageExtractor.
Variable km : KnowledgeModel.

Definition _extract_messages_choice (choice : option Choice) : M unit :=
  c <- node choice "label" ;;
  append {| msgid := choice_label c; entity_type := "choice";
            entity_uuid := choice_uuid c; entity_attribute := "label" |}.

(** [isinstance(None, cls)] is false for both classes, so an absent
    reference is passed over. *)
Definition _extract_messages_reference (reference : option Reference) : M unit :=
  if_instance (reference ≫= as_url_reference) (fun label =>
    r <- node reference "label" ;;
    append {| msgid := label; entity_type := "url-reference";
              entity_uuid := reference_uuid r; entity_attribute := "label" |}) ;;
  if_instance (reference ≫= as_cross_reference) (fun description =>
    r <- node reference "description" ;;
    append {| msgid := description; entity_type := "cross-reference";
              entity_uuid := reference_uuid r;
              entity_attribute := "description" |}).

(** The body of [_extract_messages_answer], with the visitor of the
    follow-up questions as a parameter. *)
Definition extract_messages_answer_body
    (visit_question : option Question -> M unit) (answer : option Answer) : M unit :=
  a <- node answer "label" ;;
  append {| msgid := answer_label a; entity_type := "answer";
            entity_uuid := answer_uuid a; entity_attribute := "label" |} ;;
  if_truthy (answer_advice a) (fun advice =>
    append {| msgid := advice; entity_type := "answer";
              entity_uuid := answer_uuid a; entity_attribute := "advice" |}) ;;
  for_each (follow_up_uuids a) (fun question_uuid =>
    visit_question (questions (entities km) !! question_uuid)).

(** [fuel] bounds the nesting depth of questions. *)
Fixpoint _extract_messages_question (fuel : nat) (question : option Question) : M unit :=
  match fuel with
  | O => out_of_fuel
  | S fuel' =>
      q <- node question "title" ;;
      append {| msgid := question_title q; entity_type := "question";
                entity_uuid := question_uuid q; entity_attribute := "title" |} ;;
      if_truthy (question_text q) (fun text =>
        append {| msgid := text; entity_type := "question";
                  entity_uuid := question_uuid q; entity_attribute := "text" |}) ;;
      if_instance (as_list_question q) (fun item_template_question_uuids =>
        for_each item_template_question_uuids (fun question_uuid =>
          _extract_messages_question fuel' (questions (entities km) !! question_uuid))) ;;
      if_instance (as_multi_choice_question q) (fun choice_uuids =>
        for_each choice_uuids (fun choice_uuid =>
          _extract_messages_choice (choices (entities km) !! choice_uuid))) ;;
      if_instance (as_options_question q) (fun answer_uuids =>
        for_each answer_uuids (fun answer_uuid =>
          extract_messages_answer_body (_extract_messages_question fuel')
            (answers (entities km) !! answer_uuid))) ;;
      for_each (reference_uuids q) (fun reference_uuid =>
        _extract_messages_reference (references (entities km) !! reference_uuid))
  end.

Definition _extract_messages_answer (fuel : nat) : option Answer -> M unit :=
  extract_messages_answer_body (_extract_messages_question fuel).

Definition _extract_messages_chapter (fuel : nat) (chapter : option Chapter) : M unit :=
  c <- node chapter "title" ;;
  append {| msgid := chapter_title c; entity_type := "chapter";
            entity_uuid := chapter_uuid c; entity_attribute := "title" |} ;;
  if_truthy (chapter_text c) (fun text =>
    append {| msgid := text; entity_type := "chapter";
              entity_uuid := chapter_uuid c; entity_attribute := "text" |}) ;;
  for_each (question_uuids c) (fun question_uuid =>
    _extract_messages_question fuel (questions (entities km) !! question_uuid)).

Definition _extract_messages_phase (phase : option Phase) : M unit :=
  p <- node phase "title" ;;
  append {| msgid := phase_title p; entity_type := "phase";
            entity_uuid := phase_uuid p; entity_attribute := "title" |} ;;
  if_truthy (phase_description p) (fun description =>
    append {| msgid := description; entity_type := "phase";
              entity_uuid := phase_uuid p; entity_attribute := "description" |}).

Definition _extract_messages_tag (tag : option Tag) : M unit :=
  t <- node tag "name" ;;
  append {| msgid := tag_name t; entity_type := "tag";
            entity_uuid := tag_uuid t; entity_attribute := "name" |} ;;
  if_truthy (tag_description t) (fun description =>
    append {| msgid := description; entity_type := "tag";
              entity_uuid := tag_uuid t; entity_attribute := "description" |}).

Definition _extract_messages_metric (metric : option Metric) : M unit :=
  m <- node metric "title" ;;
  append {| msgid := metric_title m; entity_type := "metrics";
            entity_uuid := metric_uuid m; entity_attribute := "title" |} ;;
  if_truthy (metric_description m) (fun description =>
    append {| msgid := description; entity_type := "metrics";
              entity_uuid := metric_uuid m; entity_attribute := "description" |}).

Definition _extract_messages_resource_page (rp : option ResourcePage) : M unit :=
  p <- node rp "title" ;;
  append {| msgid := resource_page_title p; entity_type := "resource_page";
            entity_uuid := resource_page_uuid p; entity_attribute := "title" |} ;;
  if_truthy (resource_page_content p) (fun content =>
    append {| msgid := content; entity_type := "resource_page";
              entity_uuid := resource_page_uuid p; entity_attribute := "content" |}).

Definition _extract_messages_resource_collection (rc : option ResourceCollection) : M unit :=
  c <- node rc "title" ;;
  append {| msgid := resource_collection_title c; entity_type := "resource_collection";
            entity_uuid := resource_collection_uuid c; entity_attribute := "title" |} ;;
  for_each (resource_page_uuids c) (fun rp_uuid =>
    _extract_messages_resource_page (resource_pages (entities km) !! rp_uuid)).

(** The traversal of [extract_messages] after [self.reset()]. *)
Definition extract_chapters (fuel : nat) : M unit :=
  for_each (chapter_uuids km) (fun chapter_uuid =>
    _extract_messages_chapter fuel (chapters (entities km) !! chapter_uuid)).
End MessageExtractor.

(** The extractor object: the model it was built for and the list object
    [self.messages].  [extract_messages] returns that very list, so what a
    caller holds after a call is [self_messages] of the extractor at the time
    it is read. *)
Record MessageExtractor := {
  self_km : KnowledgeModel;
  self_messages : list ExtractedMessage
}.

Definition __init__ (km : KnowledgeModel) : MessageExtractor :=
  {| self_km := km; self_messages := [] |}.

Definition reset (self : MessageExtractor) : MessageExtractor :=
  {| self_km := self_km self; self_messages := [] |}.

Definition extract_messages (fuel : nat) (self : MessageExtractor)
    : outcome unit * MessageExtractor :=
  let self := reset self in
  let (result, msgs) := extract_chapters (self_km self) fuel (self_messages self) in
  (result, {| self_km := self_km self; self_messages := msgs |}).

(** ** The catalog builder *)

(** A location as stored in the sets of [locs_by_msgid]: [(path, line)]. *)
Definition location : Type := string * Z.

(** [sorted(iterable, key=...)]: a stable sort, by insertion from the right
    before the first element whose key is not smaller. *)
Section sorted.
Context {A K : Type} (key : A -> K) (le : K -> K -> bool).

Fixpoint insert_by (x : A) (l : list A) : list A :=
  match l with
  | [] => [x]
  | y :: l' => if le (key x) (key y) then x :: y :: l' else y :: insert_by x l'
  end.

Definition sorted (l : list A) : list A := foldr insert_by [] l.
End sorted.

(** The order of Python tuples [(str, int)]: lexicographic. *)
Definition tuple_leb (a b : string * Z) : bool :=
  match String.compare a.1 b.1 with
  | Lt => true
  | Eq => a.2 <=? b.2
  | Gt => false
  end.

(** The order in which the interpreter enumerates a set and the items of a
    dictionary.  For a set of tuples of strings it depends on the hash seed of
    the process, so nothing is assumed of it but that every element comes
    once. *)
Record Iteration := {
  set_iter : gset location -> list location;
  set_iter_perm : forall s, set_iter s ≡ₚ elements s;
  dict_items : gmap string (gset location) -> list (string * gset location);
  dict_items_perm : forall d, dict_items d ≡ₚ map_to_list d
}.

Definition default_iteration : Iteration :=
  {| set_iter := elements;
     set_iter_perm := fun s => Permutation_refl (elements s);
     dict_items := map_to_list;
     dict_items_perm := fun d => Permutation_refl (map_to_list d) |}.

(** [not s] for a string. *)
Definition py_not (s : string) : bool :=
  match s with
  | EmptyString => true
  | String _ _ => false
  end.

(** One round of the grouping loop; [locs_by_msgid] is a
    [defaultdict(set)]. *)
Definition add_occurrence (locs_by_msgid : gmap string (gset location))
    (occ : ExtractedMessage) : gmap string (gset location) :=
  if py_not (msgid occ) then locs_by_msgid
  else <[msgid occ := default ∅ (locs_by_msgid !! msgid occ) ∪ {[(path occ, line occ)]}]>
         locs_by_msgid.

Definition group_locations (messages : list ExtractedMessage)
    : gmap string (gset location) :=
  foldl add_occurrence ∅ messages.

(** A reading of the wall clock, in seconds. *)
Definition datetime : Type := Z.

(** The catalog handed to [write_po]: its header fields and, in the order of
    the calls of [catalog.add], the message identifiers with their
    locations.  [Catalog(...)] is called without a creation date, and babel
    then stores [datetime.now()], the clock of the run. *)
Record Catalog := {
  project : string;
  version : string;
  charset : string;
  creation_date : datetime;
  catalog_messages : list (string * list location)
}.

(** [now] is the clock reading at the call of [Catalog(...)]. *)
Definition build_pot (it : Iteration) (now : datetime)
    (messages : list ExtractedMessage) : Catalog :=
  let locs_by_msgid := group_locations messages in
  {| project := "Common DSW Knowledge Model";
     version := "2.7.0";
     charset := "utf-8";
     creation_date := now;
     catalog_messages :=
       (fun kv : string * gset location =>
          (kv.1, sorted (fun t : location => (t.1, t.2)) tuple_leb (set_iter it kv.2)))
       <$> sorted fst String.leb (dict_items it locs_by_msgid) |}.

(** The script: extract from a fresh extractor, then build the catalog. *)
Definition main (it : Iteration) (now : datetime) (fuel : nat) (km : KnowledgeModel)
    : outcome Catalog :=
  match extract_messages fuel (__init__ km) with
  | (Ok _, self) => Ok (build_pot it now (self_messages self))
  | (Raise e, _) => Raise e
  | (OutOfFuel, _) => OutOfFuel
  end.

(** ** Sample models *)

(** One chapter with one plain question that has one URL reference. *)
Definition km_intro : KnowledgeModel :=
  {| chapter_uuids := ["C1"]; tag_uuids := []; phase_uuids := [];
     metric_uuids := []; resource_collection_uuids := [];
     entities :=
       {| questions := {[ "Q1" := {| question_uuid := "Q1"; question_title := "Name?";
                                     question_text := Some "";
                                     as_list_question := None;
                                     as_multi_choice_question := None;
                                     as_options_question := None;
                                     reference_uuids := ["R1"] |} ]};
          choices := ∅; answers := ∅;
          references := {[ "R1" := {| reference_uuid := "R1";
                                      as_url_reference := Some "See docs";
                                      as_cross_reference := None |} ]};
          chapters := {[ "C1" := {| chapter_uuid := "C1"; chapter_title := "Intro";
                                    chapter_text := Some "";
                                    question_uuids := ["Q1"] |} ]};
          phases := ∅; tags := ∅; metrics := ∅; resource_collections := ∅;
          resource_pages := ∅ |} |}.

(** The chapter of [km_intro] also lists a question [Q9] that the registry
    does not hold. *)
Definition km_missing_question : KnowledgeModel :=
  {| chapter_uuids := ["C1"]; tag_uuids := []; phase_uuids := [];
     metric_uuids := []; resource_collection_uuids := [];
     entities :=
       {| questions := questions (entities km_intro);
          choices := ∅; answers := ∅;
          references := references (entities km_intro);
          chapters := {[ "C1" := {| chapter_uuid := "C1"; chapter_title := "Intro";
                                    chapter_text := Some "";
                                    question_uuids := ["Q1"; "Q9"] |} ]};
          phases := ∅; tags := ∅; metrics := ∅; resource_collections := ∅;
          resource_pages := ∅ |} |}.

(** The question of [km_intro] also lists a reference [R9] that the registry
    does not hold. *)
Definition km_missing_reference : KnowledgeModel :=
  {| chapter_uuids := ["C1"]; tag_uuids := []; phase_uuids := [];
     metric_uuids := []; resource_collection_uuids := [];
     entities :=
       {| questions := {[ "Q1" := {| question_uuid := "Q1"; question_title := "Name?";
                                     question_text := Some "";
                                     as_list_question := None;
                                     as_multi_choice_question := None;
                                     as_options_question := None;
                                     reference_uuids := ["R9"; "R1"] |} ]};
          choices := ∅; answers := ∅;
          references := references (entities km_intro);
          chapters := chapters (entities km_intro);
          phases := ∅; tags := ∅; metrics := ∅; resource_collections := ∅;
          resource_pages := ∅ |} |}.

(** A question that is both a multi-choice and an options question. *)
Definition question_agree : Question :=
  {| question_uuid := "Q1"; question_title := "Agree?";
     question_text := Some "Pick";
     as_list_question := None;
     as_multi_choice_question := Some ["B"; "A"];
     as_options_question := Some ["N"];
     reference_uuids := ["R1"] |}.

Definition message_yes_a : ExtractedMessage :=
  {| msgid := "Yes"; entity_type := "choice"; entity_uuid := "A";
     entity_attribute := "label" |}.

Definition message_yes_b : ExtractedMessage :=
  {| msgid := "Yes"; entity_type := "choice"; entity_uuid := "B";
     entity_attribute := "label" |}.

(** Two choices with the same label under [question_agree], whose answer has
    a follow-up question with an empty title. *)
Definition km_choices : KnowledgeModel :=
  {| chapter_uuids := ["C1"]; tag_uuids := ["T1"]; phase_uuids := [];
     metric_uuids := []; resource_collection_uuids := [];
     entities :=
       {| questions :=
            {[ "Q1" := question_agree;
               "Q2" := {| question_uuid := "Q2"; question_title := "";
                          question_text := None;
                          as_list_question := Some [];
                          as_multi_choice_question := None;
                          as_options_question := None;
                          reference_uuids := [] |} ]};
          choices := {[ "A" := {| choice_uuid := "A"; choice_label := "Yes" |};
                        "B" := {| choice_uuid := "B"; choice_label := "Yes" |} ]};
          answers := {[ "N" := {| answer_uuid := "N"; answer_label := "No";
                                  answer_advice := Some "Yes";
                                  follow_up_uuids := ["Q2"] |} ]};
          references := references (entities km_intro);
          chapters := {[ "C1" := {| chapter_uuid := "C1"; chapter_title := "Intro";
                                    chapter_text := None;
                                    question_uuids := ["Q1"] |} ]};
          phases := ∅;
          tags := {[ "T1" := {| tag_uuid := "T1"; tag_name := "Tag";
                                tag_description := None |} ]};
          metrics := ∅; resource_collections := ∅; resource_pages := ∅ |} |}.

(** ** Notions used in the statements *)

(** What a visitor does on an empty message list. *)
Definition status {A} (m : M A) : outcome A := (m []).1.
Definition emitted {A} (m : M A) : list ExtractedMessage := (m []).2.

(** A visitor only appends: it neither reads nor rewrites what is there. *)
Definition appends {A} (m : M A) : Prop :=
  forall msgs, m msgs = (status m, msgs ++ emitted m).

(** [m2] does what [m1] does wherever [m1] has fuel enough. *)
Definition refines {A} (m1 m2 : M A) : Prop :=
  forall msgs, (m1 msgs).1 <> OutOfFuel -> m2 msgs = m1 msgs.

(** Every message added satisfies [PM], every error raised satisfies [PE]. *)
Definition run_inv {A} (PM : ExtractedMessage -> Prop) (PE : exn -> Prop)
    (m : M A) : Prop :=
  forall msgs, Forall PM msgs ->
    Forall PM (m msgs).2 /\ (forall e, (m msgs).1 = Raise e -> PE e).

Definition root_entity_types : list string :=
  ["chapter"; "question"; "choice"; "answer"; "url-reference"; "cross-reference"].

Definition from_root (m : ExtractedMessage) : Prop :=
  entity_type m ∈ root_entity_types.

(** The error of reading [title] or [label] on [None]. *)
Definition none_error (e : exn) : Prop :=
  e = AttributeError "NoneType" "title" \/ e = AttributeError "NoneType" "label".

(** [mentions e s]: the text [s] occurs in the message of [e]. *)
Definition mentions (e : exn) (s : string) : bool :=
  match index 0 s (exn_message e) with
  | Some _ => true
  | None => false
  end.

Definition aborts_naming (r : outcome unit) (identifier type_name : string) : Prop :=
  exists e, r = Raise e /\ mentions e identifier = true /\ mentions e type_name = true.

(** The records of a question itself. *)
Definition question_title_message (q : Question) : ExtractedMessage :=
  {| msgid := question_title q; entity_type := "question";
     entity_uuid := question_uuid q; entity_attribute := "title" |}.

Definition question_text_messages (q : Question) : list ExtractedMessage :=
  match question_text q with
  | Some (String c s) =>
      [{| msgid := String c s; entity_type := "question";
          entity_uuid := question_uuid q; entity_attribute := "text" |}]
  | _ => []
  end.

(** A check of the identifiers of chapters, questions, choices and answers
    that the traversal from the chapter list meets: each must be held by the
    registry.  The check follows the questions [fuel] levels deep and answers
    [at_limit] for a question below that. *)
Section resolved.
Variable km : KnowledgeModel.
Variable at_limit : bool.

Definition choice_resolved (choice_uuid : string) : bool :=
  bool_decide (is_Some (choices (entities km) !! choice_uuid)).

Fixpoint question_check (fuel : nat) (question_uuid : string) : bool :=
  match fuel with
  | O => at_limit
  | S fuel' =>
      match questions (entities km) !! question_uuid with
      | None => false
      | Some q =>
          forallb (question_check fuel') (default [] (as_list_question q)) &&
          forallb choice_resolved (default [] (as_multi_choice_question q)) &&
          forallb (fun answer_uuid =>
                     match answers (entities km) !! answer_uuid with
                     | None => false
                     | Some a => forallb (question_check fuel') (follow_up_uuids a)
                     end)
            (default [] (as_options_question q))
      end
  end.

Definition chapters_check (fuel : nat) : bool :=
  forallb (fun chapter_uuid =>
             match chapters (entities km) !! chapter_uuid with
             | None => false
             | Some c => forallb (question_check fuel) (question_uuids c)
             end)
    (chapter_uuids km).
End resolved.

(** No identifier met within [fuel] levels of questions is absent. *)
Definition chapters_resolved (km : KnowledgeModel) (fuel : nat) : bool :=
  chapters_check km true fuel.

(** No identifier met is absent and the questions nest less than [fuel]
    levels deep. *)
Definition chapters_within (km : KnowledgeModel) (fuel : nat) : bool :=
  chapters_check km false fuel.

(** The claim that a run which ends on a model with a dangling identifier
    aborts with an error naming the identifier and the entity type. *)
Definition aborts_naming_claim (km : KnowledgeModel) (identifier type_name : string)
    : Prop :=
  forall fuel,
    (extract_messages fuel (__init__ km)).1 <> OutOfFuel ->
    aborts_naming (extract_messages fuel (__init__ km)).1 identifier type_name.

(** The catalog entries with the locations sorted by their path alone. *)
Definition catalog_messages_by_path (it : Iteration) (messages : list ExtractedMessage)
    : list (string * list location) :=
  (fun kv : string * gset location => (kv.1, sorted fst String.leb (set_iter it kv.2)))
  <$> sorted fst String.leb (dict_items it (group_locations messages)).


(** The strict order of strings behind [String.compare]. *)
Definition str_lt (a b : string) : Prop := String.compare a b = Lt.

(** The order that a key and a comparison give on the elements. *)
Definition key_le {A K} (key : A -> K) (le : K -> K -> bool) (x y : A) : Prop :=
  le (key x) (key y) = true.

(** ** Notions used for the other visitors and for whole runs *)

(** The records of a chapter itself. *)
Definition chapter_title_message (c : Chapter) : ExtractedMessage :=
  {| msgid := chapter_title c; entity_type := "chapter";
     entity_uuid := chapter_uuid c; entity_attribute := "title" |}.

Definition chapter_text_messages (c : Chapter) : list ExtractedMessage :=
  match chapter_text c with
  | Some (String ch s) =>
      [{| msgid := String ch s; entity_type := "chapter";
          entity_uuid := chapter_uuid c; entity_attribute := "text" |}]
  | _ => []
  end.

(** The records of an answer itself. *)
Definition answer_label_message (a : Answer) : ExtractedMessage :=
  {| msgid := answer_label a; entity_type := "answer";
     entity_uuid := answer_uuid a; entity_attribute := "label" |}.

Definition answer_advice_messages (a : Answer) : list ExtractedMessage :=
  match answer_advice a with
  | Some (String ch s) =>
      [{| msgid := String ch s; entity_type := "answer";
          entity_uuid := answer_uuid a; entity_attribute := "advice" |}]
  | _ => []
  end.

(** The records of the result of a reference lookup. *)
Definition reference_messages (reference : option Reference) : list ExtractedMessage :=
  match reference with
  | None => []
  | Some r =>
      match as_url_reference r with
      | Some label =>
          [{| msgid := label; entity_type := "url-reference";
              entity_uuid := reference_uuid r; entity_attribute := "label" |}]
      | None => []
      end ++
      match as_cross_reference r with
      | Some description =>
          [{| msgid := description; entity_type := "cross-reference";
              entity_uuid := reference_uuid r; entity_attribute := "description" |}]
      | None => []
      end
  end.

(** The records of a resource page and the title record of a collection. *)
Definition resource_page_messages (p : ResourcePage) : list ExtractedMessage :=
  {| msgid := resource_page_title p; entity_type := "resource_page";
     entity_uuid := resource_page_uuid p; entity_attribute := "title" |}
  :: match resource_page_content p with
     | Some (String ch s) =>
         [{| msgid := String ch s; entity_type := "resource_page";
             entity_uuid := resource_page_uuid p; entity_attribute := "content" |}]
     | _ => []
     end.

Definition resource_collection_title_message (rc : ResourceCollection)
    : ExtractedMessage :=
  {| msgid := resource_collection_title rc; entity_type := "resource_collection";
     entity_uuid := resource_collection_uuid rc; entity_attribute := "title" |}.

Definition page_resolved (km : KnowledgeModel) (rp_uuid : string) : bool :=
  bool_decide (is_Some (resource_pages (entities km) !! rp_uuid)).

(** The pairs of entity type and attribute that the visitors reached from the
    chapter list write. *)
Definition root_fields : list (string * string) :=
  [ ("chapter", "title"); ("chapter", "text");
    ("question", "title"); ("question", "text");
    ("choice", "label");
    ("answer", "label"); ("answer", "advice");
    ("url-reference", "label"); ("cross-reference", "description") ].

(** A record of one of these fields; the fields written under a truth test
    ([text], [advice]) never with an empty text. *)
Definition record_shape (m : ExtractedMessage) : Prop :=
  (entity_type m, entity_attribute m) ∈ root_fields /\
  (entity_attribute m = "text" \/ entity_attribute m = "advice" -> msgid m <> "").

(** The string has no colon, the separator of [path]. *)
Fixpoint no_colon (s : string) : bool :=
  match s with
  | EmptyString => true
  | String c s' => negb (Ascii.eqb c ":"%char) && no_colon s'
  end.

(** The chapter visitor as [extract_messages] calls it. *)
Definition visit_chapter (km : KnowledgeModel) (fuel : nat) (chapter_uuid : string)
    : M unit :=
  _extract_messages_chapter km fuel (chapters (entities km) !! chapter_uuid).

(** ** More sample models *)

(** The chapter and the answer of [km_choices]. *)
Definition chapter_choices : Chapter :=
  {| chapter_uuid := "C1"; chapter_title := "Intro"; chapter_text := None;
     question_uuids := ["Q1"] |}.

Definition answer_no : Answer :=
  {| answer_uuid := "N"; answer_label := "No"; answer_advice := Some "Yes";
     follow_up_uuids := ["Q2"] |}.

(** A list question whose first item is the question itself. *)
Definition question_loop : Question :=
  {| question_uuid := "L"; question_title := "Items"; question_text := None;
     as_list_question := Some ["L"; "Q1"];
     as_multi_choice_question := None; as_options_question := None;
     reference_uuids := [] |}.

Definition km_loop : KnowledgeModel :=
  {| chapter_uuids := ["C1"]; tag_uuids := []; phase_uuids := [];
     metric_uuids := []; resource_collection_uuids := [];
     entities :=
       {| questions := {[ "L" := question_loop ]};
          choices := ∅; answers := ∅; references := ∅;
          chapters := {[ "C1" := {| chapter_uuid := "C1"; chapter_title := "Loop";
                                    chapter_text := None;
                                    question_uuids := ["L"] |} ]};
          phases := ∅; tags := ∅; metrics := ∅; resource_collections := ∅;
          resource_pages := ∅ |} |}.

(** The chapter list of [km_intro] with an identifier [C9], which the registry
    does not hold, between two occurrences of [C1]. *)
Definition km_missing_chapter : KnowledgeModel :=
  {| chapter_uuids := ["C1"; "C9"; "C1"]; tag_uuids := []; phase_uuids := [];
     metric_uuids := []; resource_collection_uuids := [];
     entities := entities km_intro |}.

(** Another record of the label of choice [A], with another text. *)
Definition message_choice_a : ExtractedMessage :=
  {| msgid := "Oui"; entity_type := "choice"; entity_uuid := "A";
     entity_attribute := "label" |}.

(** Two records whose paths coincide although their identifiers and attributes
    differ: the identifier of the first holds a colon. *)
Definition message_colon_1 : ExtractedMessage :=
  {| msgid := "x"; entity_type := "a"; entity_uuid := "b:c"; entity_attribute := "d" |}.

Definition message_colon_2 : ExtractedMessage :=
  {| msgid := "x"; entity_type := "a"; entity_uuid := "b"; entity_attribute := "c:d" |}.

(** ** What the writer is given *)






(** The records of the fields that the other visitors always write. *)
Definition choice_label_message (c : Choice) : ExtractedMessage :=
  {| msgid := choice_label c; entity_type := "choice";
     entity_uuid := choice_uuid c; entity_attribute := "label" |}.

Definition phase_title_message (p : Phase) : ExtractedMessage :=
  {| msgid := phase_title p; entity_type := "phase";
     entity_uuid := phase_uuid p; entity_attribute := "title" |}.

Definition tag_name_message (t : Tag) : ExtractedMessage :=
  {| msgid := tag_name t; entity_type := "tag";
     entity_uuid := tag_uuid t; entity_attribute := "name" |}.

Definition metric_title_message (m : Metric) : ExtractedMessage :=
  {| msgid := metric_title m; entity_type := "metrics";
     entity_uuid := metric_uuid m; entity_attribute := "title" |}.

Definition resource_page_title_message (p : ResourcePage) : ExtractedMessage :=
  {| msgid := resource_page_title p; entity_type := "resource_page";
     entity_uuid := resource_page_uuid p; entity_attribute := "title" |}.

(** * Properties *)

(** ** The visitors only append *)

Lemma run_eq {A} (m : M A) : m [] = (status m, emitted m).
Proof. unfold status, emitted. by destruct (m []). Qed.

Lemma appends_ret {A} (a : A) : appends (ret a).
Proof. intros msgs. unfold ret, status, emitted; simpl. by rewrite app_nil_r. Qed.

Lemma appends_raise {A} e : appends (@raise A e).
Proof. intros msgs. unfold raise, status, emitted; simpl. by rewrite app_nil_r. Qed.

Lemma appends_out_of_fuel {A} : appends (@out_of_fuel A).
Proof. intros msgs. unfold out_of_fuel, status, emitted; simpl. by rewrite app_nil_r. Qed.

Lemma appends_append m : appends (append m).
Proof. by intros msgs. Qed.

Lemma appends_bind {A B} (m : M A) (k : A -> M B) :
  appends m -> (forall a, appends (k a)) -> appends (bind m k).
Proof.
  intros Hm Hk msgs. unfold status, emitted, bind.
  rewrite (Hm msgs), (run_eq m).
  destruct (status m) as [a| |]; simpl; try done.
  rewrite (Hk a (msgs ++ emitted m)), (Hk a (emitted m)); simpl.
  by rewrite app_assoc.
Qed.

Lemma appends_for_each {A} (xs : list A) (body : A -> M unit) :
  (forall x, appends (body x)) -> appends (for_each xs body).
Proof.
  intros Hbody. induction xs as [|x xs IH]; simpl.
  - apply appends_ret.
  - apply appends_bind; auto.
Qed.

Lemma appends_node {N} (obj : option N) attr : appends (node obj attr).
Proof. destruct obj; [apply appends_ret | apply appends_raise]. Qed.

Lemma appends_if_truthy value body :
  (forall s, appends (body s)) -> appends (if_truthy value body).
Proof. intros H. destruct value as [[|c s]|]; simpl; auto using @appends_ret. Qed.

Lemma appends_if_instance {F} (facet : option F) body :
  (forall f, appends (body f)) -> appends (if_instance facet body).
Proof. intros H. destruct facet; simpl; auto using @appends_ret. Qed.

Ltac appends_step :=
  first [ apply appends_append | apply appends_node | apply appends_ret
        | apply appends_bind; [|intros ?]
        | apply appends_if_truthy; intros ?
        | apply appends_if_instance; intros ?
        | apply appends_for_each; intros ? ].

Lemma appends_choice choice : appends (_extract_messages_choice choice).
Proof. unfold _extract_messages_choice. repeat appends_step. Qed.

Lemma appends_reference reference : appends (_extract_messages_reference reference).
Proof. unfold _extract_messages_reference. repeat appends_step. Qed.

Lemma appends_answer_body km visit answer :
  (forall q, appends (visit q)) ->
  appends (extract_messages_answer_body km visit answer).
Proof. intros H. unfold extract_messages_answer_body. repeat appends_step. apply H. Qed.

Lemma appends_question km fuel question :
  appends (_extract_messages_question km fuel question).
Proof.
  revert question. induction fuel as [|fuel IH]; intros question; simpl.
  - apply appends_out_of_fuel.
  - repeat appends_step;
      auto using appends_choice, appends_reference, appends_answer_body.
Qed.

Lemma appends_answer km fuel answer : appends (_extract_messages_answer km fuel answer).
Proof. apply appends_answer_body, appends_question. Qed.

Lemma appends_chapter km fuel chapter :
  appends (_extract_messages_chapter km fuel chapter).
Proof. unfold _extract_messages_chapter. repeat appends_step. apply appends_question. Qed.

Lemma appends_chapters km fuel : appends (extract_chapters km fuel).
Proof. apply appends_for_each. intros. apply appends_chapter. Qed.

Ltac visitor_appends :=
  repeat appends_step;
  auto using appends_choice, appends_reference, appends_answer, appends_question.

(** Status and emitted messages of a sequence and of a loop. *)

Lemma run_bind {A B} (m : M A) (k : A -> M B) :
  appends m -> (forall a, appends (k a)) ->
  status (bind m k) =
    match status m with
    | Ok a => status (k a)
    | Raise e => Raise e
    | OutOfFuel => OutOfFuel
    end /\
  emitted (bind m k) =
    emitted m ++ match status m with Ok a => emitted (k a) | _ => [] end.
Proof.
  intros Hm Hk. unfold status at 1, emitted at 1, bind. rewrite (run_eq m).
  destruct (status m) as [a| |]; simpl; rewrite ?app_nil_r; try done.
  by rewrite (Hk a (emitted m)).
Qed.

Lemma for_each_ok {A} (xs : list A) (body : A -> M unit) :
  (forall x, appends (body x)) ->
  status (for_each xs body) = Ok tt ->
  Forall (fun x => status (body x) = Ok tt) xs /\
  emitted (for_each xs body) = flat_map (fun x => emitted (body x)) xs.
Proof.
  intros Hbody. induction xs as [|x xs IH]; simpl; intros Hok.
  - by split.
  - pose proof (appends_for_each xs body Hbody) as Hrest.
    destruct (run_bind (body x) (fun _ => for_each xs body) (Hbody x) (fun _ => Hrest))
      as [Hs He].
    rewrite Hs in Hok. rewrite He.
    destruct (status (body x)) as [[]| |] eqn:Hx; try done.
    destruct (IH Hok) as [Hall Hem]. split; [by constructor | by rewrite Hem].
Qed.

Lemma for_each_emitted {A} (xs : list A) (body : A -> M unit) :
  (forall x, appends (body x)) ->
  status (for_each xs body) = Ok tt ->
  emitted (for_each xs body) = flat_map (fun x => emitted (body x)) xs.
Proof. intros Hbody Hok. by apply for_each_ok. Qed.

Lemma seq_ok (m k : M unit) :
  appends m -> appends k ->
  status (m ;; k) = Ok tt ->
  status m = Ok tt /\ status k = Ok tt /\ emitted (m ;; k) = emitted m ++ emitted k.
Proof.
  intros Hm Hk Hok.
  destruct (run_bind m (fun _ => k) Hm (fun _ => Hk)) as [Hs He].
  rewrite Hs in Hok. rewrite He.
  by destruct (status m) as [[]| |].
Qed.

Lemma if_truthy_question_text q :
  emitted (if_truthy (question_text q) (fun text =>
    append {| msgid := text; entity_type := "question";
              entity_uuid := question_uuid q; entity_attribute := "text" |}))
  = question_text_messages q.
Proof. unfold question_text_messages. by destruct (question_text q) as [[|c s]|]. Qed.

Lemma bind_ret {A B} (a : A) (k : A -> M B) : bind (ret a) k = k a.
Proof. reflexivity. Qed.

Lemma question_unfold km fuel q :
  _extract_messages_question km (S fuel) (Some q) =
  (append (question_title_message q) ;;
   if_truthy (question_text q) (fun text =>
     append {| msgid := text; entity_type := "question";
               entity_uuid := question_uuid q; entity_attribute := "text" |}) ;;
   for_each (default [] (as_list_question q)) (fun question_uuid =>
     _extract_messages_question km fuel (questions (entities km) !! question_uuid)) ;;
   for_each (default [] (as_multi_choice_question q)) (fun choice_uuid =>
     _extract_messages_choice (choices (entities km) !! choice_uuid)) ;;
   for_each (default [] (as_options_question q)) (fun answer_uuid =>
     _extract_messages_answer km fuel (answers (entities km) !! answer_uuid)) ;;
   for_each (reference_uuids q) (fun reference_uuid =>
     _extract_messages_reference (references (entities km) !! reference_uuid))).
Proof.
  unfold _extract_messages_answer.
  cbn [_extract_messages_question].
  change (node (Some q) "title") with (ret q). rewrite bind_ret.
  by destruct (as_list_question q), (as_multi_choice_question q),
    (as_options_question q).
Qed.

Lemma question_ok km fuel q :
  status (_extract_messages_question km (S fuel) (Some q)) = Ok tt ->
  status (for_each (default [] (as_list_question q)) (fun question_uuid =>
    _extract_messages_question km fuel (questions (entities km) !! question_uuid)))
    = Ok tt /\
  status (for_each (default [] (as_multi_choice_question q)) (fun choice_uuid =>
    _extract_messages_choice (choices (entities km) !! choice_uuid))) = Ok tt /\
  status (for_each (default [] (as_options_question q)) (fun answer_uuid =>
    _extract_messages_answer km fuel (answers (entities km) !! answer_uuid))) = Ok tt /\
  status (for_each (reference_uuids q) (fun reference_uuid =>
    _extract_messages_reference (references (entities km) !! reference_uuid)))
    = Ok tt /\
  emitted (_extract_messages_question km (S fuel) (Some q)) =
    question_title_message q :: question_text_messages q
    ++ emitted (for_each (default [] (as_list_question q)) (fun question_uuid =>
         _extract_messages_question km fuel (questions (entities km) !! question_uuid)))
    ++ emitted (for_each (default [] (as_multi_choice_question q)) (fun choice_uuid =>
         _extract_messages_choice (choices (entities km) !! choice_uuid)))
    ++ emitted (for_each (default [] (as_options_question q)) (fun answer_uuid =>
         _extract_messages_answer km fuel (answers (entities km) !! answer_uuid)))
    ++ emitted (for_each (reference_uuids q) (fun reference_uuid =>
         _extract_messages_reference (references (entities km) !! reference_uuid))).
Proof.
  rewrite question_unfold. intros Hok.
  apply seq_ok in Hok as (_ & Hok & ->); [|visitor_appends..].
  apply seq_ok in Hok as (_ & Hok & ->); [|visitor_appends..].
  apply seq_ok in Hok as (H1 & Hok & ->); [|visitor_appends..].
  apply seq_ok in Hok as (H2 & Hok & ->); [|visitor_appends..].
  apply seq_ok in Hok as (H3 & Hok & ->); [|visitor_appends..].
  by rewrite if_truthy_question_text.
Qed.

(** ** The order of traversal of a question *)

(** C6. A visit of a question that returns has appended, in this order: the
    title record, the text record when the text is non-empty, the records of
    the item-template questions when the node is a list question, those of the
    choices when it is a multi-choice question, those of the answers when it is
    an options question (each of the three whenever the node is an instance,
    so under every matching branch), and last those of its references; every
    list of children is visited in the declared order. *)
Theorem question_visit_order km fuel q msgs msgs' :
  _extract_messages_question km (S fuel) (Some q) msgs = (Ok tt, msgs') ->
  msgs' =
    msgs ++ question_title_message q :: question_text_messages q
    ++ flat_map (fun question_uuid =>
         emitted (_extract_messages_question km fuel
                    (questions (entities km) !! question_uuid)))
         (default [] (as_list_question q))
    ++ flat_map (fun choice_uuid =>
         emitted (_extract_messages_choice (choices (entities km) !! choice_uuid)))
         (default [] (as_multi_choice_question q))
    ++ flat_map (fun answer_uuid =>
         emitted (_extract_messages_answer km fuel
                    (answers (entities km) !! answer_uuid)))
         (default [] (as_options_question q))
    ++ flat_map (fun reference_uuid =>
         emitted (_extract_messages_reference
                    (references (entities km) !! reference_uuid)))
         (reference_uuids q).
Proof.
  intros Hrun.
  assert (status (_extract_messages_question km (S fuel) (Some q)) = Ok tt /\
          msgs' = msgs ++ emitted (_extract_messages_question km (S fuel) (Some q)))
    as [Hok ->].
  { rewrite (appends_question km (S fuel) (Some q) msgs) in Hrun.
    split; congruence. }
  f_equal. apply question_ok in Hok as (H1 & H2 & H3 & H4 & ->).
  rewrite !for_each_emitted;
    auto using appends_choice, appends_reference, appends_answer, appends_question.
Qed.

(** ** What the root traversal can append and raise *)

Section run_inv.
Context (PM : ExtractedMessage -> Prop) (PE : exn -> Prop).

Lemma run_inv_ret {A} (a : A) : run_inv PM PE (ret a).
Proof. intros msgs Hmsgs. by split. Qed.

Lemma run_inv_out_of_fuel {A} : run_inv PM PE (@out_of_fuel A).
Proof. intros msgs Hmsgs. by split. Qed.

Lemma run_inv_append m : PM m -> run_inv PM PE (append m).
Proof.
  intros Hm msgs Hmsgs. split; [|done].
  apply Forall_app. split; [done | by constructor].
Qed.

Lemma run_inv_node {N} (obj : option N) attr :
  PE (AttributeError "NoneType" attr) -> run_inv PM PE (node obj attr).
Proof.
  intros He msgs Hmsgs. destruct obj; simpl; split; try done.
  intros e [= <-]. done.
Qed.

Lemma run_inv_bind {A B} (m : M A) (k : A -> M B) :
  run_inv PM PE m -> (forall a, run_inv PM PE (k a)) -> run_inv PM PE (bind m k).
Proof.
  intros Hm Hk msgs Hmsgs. unfold bind.
  destruct (Hm msgs Hmsgs) as [Hall Herr].
  destruct (m msgs) as [[a|e|] msgs']; simpl in *.
  - by apply Hk.
  - split; [done | intros e' [= <-]; by apply Herr].
  - by split.
Qed.

Lemma run_inv_for_each {A} (xs : list A) (body : A -> M unit) :
  (forall x, run_inv PM PE (body x)) -> run_inv PM PE (for_each xs body).
Proof.
  intros Hbody. induction xs as [|x xs IH]; simpl.
  - apply run_inv_ret.
  - apply run_inv_bind; auto.
Qed.

Lemma run_inv_if_truthy value body :
  (forall s, run_inv PM PE (body s)) -> run_inv PM PE (if_truthy value body).
Proof. intros H. destruct value as [[|c s]|]; simpl; auto using @run_inv_ret. Qed.

Lemma run_inv_if_instance {F} (facet : option F) body :
  (forall f, run_inv PM PE (body f)) -> run_inv PM PE (if_instance facet body).
Proof. intros H. destruct facet; simpl; auto using @run_inv_ret. Qed.
End run_inv.

Create HintDb visitors.

Ltac run_inv_step :=
  first [ solve [auto with visitors nocore]
        | apply run_inv_append | apply run_inv_node | apply run_inv_ret
        | apply run_inv_bind; [|intros ?]
        | apply run_inv_if_truthy; intros ?
        | apply run_inv_if_instance; intros ?
        | apply run_inv_for_each; intros ? ].

Ltac root_side :=
  first [ unfold none_error; auto; fail
        | unfold from_root, root_entity_types; simpl;
          rewrite !elem_of_cons; auto 10; fail ].

Lemma run_inv_choice choice :
  run_inv from_root none_error (_extract_messages_choice choice).
Proof. unfold _extract_messages_choice. repeat run_inv_step; root_side. Qed.

Lemma run_inv_reference reference :
  run_inv from_root none_error (_extract_messages_reference reference).
Proof.
  unfold _extract_messages_reference.
  destruct reference as [r|]; simpl;
    [destruct (as_url_reference r), (as_cross_reference r); simpl|];
    repeat run_inv_step; root_side.
Qed.

#[local] Hint Resolve run_inv_choice run_inv_reference : visitors.

Lemma run_inv_question km fuel question :
  run_inv from_root none_error (_extract_messages_question km fuel question).
Proof.
  revert question. induction fuel as [|fuel IH]; intros question; simpl.
  - apply run_inv_out_of_fuel.
  - unfold extract_messages_answer_body.
    repeat run_inv_step; root_side.
Qed.

#[local] Hint Resolve run_inv_question : visitors.

Lemma run_inv_chapters km fuel :
  run_inv from_root none_error (extract_chapters km fuel).
Proof.
  unfold extract_chapters, _extract_messages_chapter.
  repeat run_inv_step; root_side.
Qed.

(** C8. Whatever the model holds, tags, metrics, phases and resource
    collections included, every message in the list that [extract_messages]
    leaves (on return and on failure alike) has one of the six entity types
    of the traversal from the chapter list. *)
Theorem extract_messages_entity_types fuel self :
  Forall (fun m => entity_type m ∈ root_entity_types)
    (self_messages (extract_messages fuel self).2).
Proof.
  unfold extract_messages. simpl.
  destruct (run_inv_chapters (self_km self) fuel [] (List.Forall_nil _)) as [Hall _].
  by destruct (extract_chapters (self_km self) fuel []).
Qed.

(** ** More fuel does not change a run that had enough *)

Lemma refines_refl {A} (m : M A) : refines m m.
Proof. by intros msgs _. Qed.

Lemma refines_trans {A} (m1 m2 m3 : M A) :
  refines m1 m2 -> refines m2 m3 -> refines m1 m3.
Proof.
  intros H12 H23 msgs Hfuel.
  rewrite <- (H12 msgs Hfuel). apply H23. by rewrite (H12 msgs Hfuel).
Qed.

Lemma refines_bind {A B} (m1 m2 : M A) (k1 k2 : A -> M B) :
  refines m1 m2 -> (forall a, refines (k1 a) (k2 a)) ->
  refines (bind m1 k1) (bind m2 k2).
Proof.
  intros Hm Hk msgs. unfold bind. intros Hfuel.
  destruct (m1 msgs) as [[a|e|] msgs'] eqn:Hrun; simpl in *.
  - rewrite (Hm msgs), Hrun; [by apply Hk | by rewrite Hrun].
  - rewrite (Hm msgs), Hrun; [done | by rewrite Hrun].
  - done.
Qed.

Lemma refines_for_each {A} (xs : list A) (body1 body2 : A -> M unit) :
  (forall x, refines (body1 x) (body2 x)) ->
  refines (for_each xs body1) (for_each xs body2).
Proof.
  intros Hbody. induction xs as [|x xs IH]; simpl.
  - apply refines_refl.
  - apply refines_bind; auto.
Qed.

Lemma refines_if_truthy value body1 body2 :
  (forall s, refines (body1 s) (body2 s)) ->
  refines (if_truthy value body1) (if_truthy value body2).
Proof. intros H. destruct value as [[|c s]|]; simpl; auto using @refines_refl. Qed.

Lemma refines_if_instance {F} (facet : option F) body1 body2 :
  (forall f, refines (body1 f) (body2 f)) ->
  refines (if_instance facet body1) (if_instance facet body2).
Proof. intros H. destruct facet; simpl; auto using @refines_refl. Qed.

Ltac refines_step :=
  first [ solve [auto using @refines_refl]
        | apply refines_bind; [|intros ?]
        | apply refines_if_truthy; intros ?
        | apply refines_if_instance; intros ?
        | apply refines_for_each; intros ? ].

Lemma refines_question_S km fuel question :
  refines (_extract_messages_question km fuel question)
          (_extract_messages_question km (S fuel) question).
Proof.
  revert question. induction fuel as [|fuel IH]; intros question.
  - by intros msgs Hfuel.
  - cbn [_extract_messages_question]. unfold extract_messages_answer_body.
    repeat refines_step.
Qed.

Lemma refines_question km fuel fuel' question :
  (fuel <= fuel')%nat ->
  refines (_extract_messages_question km fuel question)
          (_extract_messages_question km fuel' question).
Proof.
  induction 1 as [|fuel' _ IH].
  - apply refines_refl.
  - eapply refines_trans; [exact IH | apply refines_question_S].
Qed.

Lemma refines_chapters km fuel fuel' :
  (fuel <= fuel')%nat ->
  refines (extract_chapters km fuel) (extract_chapters km fuel').
Proof.
  intros Hle. unfold extract_chapters, _extract_messages_chapter.
  repeat refines_step. by apply refines_question.
Qed.

Lemma extract_messages_fuel fuel fuel' self :
  (fuel <= fuel')%nat ->
  (extract_messages fuel self).1 <> OutOfFuel ->
  extract_messages fuel' self = extract_messages fuel self.
Proof.
  intros Hle. unfold extract_messages. simpl. intros Hfuel.
  rewrite (refines_chapters (self_km self) fuel fuel' Hle []); [done|].
  by destruct (extract_chapters (self_km self) fuel []).
Qed.

Lemma main_fuel it now fuel fuel' km :
  (fuel <= fuel')%nat ->
  main it now fuel km <> OutOfFuel ->
  main it now fuel' km = main it now fuel km.
Proof.
  intros Hle. unfold main. intros Hfuel.
  rewrite (extract_messages_fuel fuel fuel'); [done | done |].
  by destruct (extract_messages fuel (__init__ km)) as [[| |] ?].
Qed.

(** ** The order of strings and of location tuples *)

Lemma ascii_compare_refl c : Ascii.compare c c = Eq.
Proof. unfold Ascii.compare. apply N.compare_refl. Qed.

Lemma string_compare_refl s : String.compare s s = Eq.
Proof. induction s as [|c s IH]; simpl; [done|]. by rewrite ascii_compare_refl. Qed.

Lemma string_compare_eq a b : String.compare a b = Eq <-> a = b.
Proof.
  split; [apply String.compare_eq_iff | intros ->; apply string_compare_refl].
Qed.

Lemma string_compare_lt_trans a b c :
  String.compare a b = Lt -> String.compare b c = Lt -> String.compare a c = Lt.
Proof.
  revert b c. induction a as [|x a IH]; intros [|y b] [|z c]; simpl; try done.
  destruct (Ascii.compare x y) eqn:Hxy; try done;
    destruct (Ascii.compare y z) eqn:Hyz; try done.
  - apply Ascii.compare_eq_iff in Hxy as ->. apply Ascii.compare_eq_iff in Hyz as ->.
    rewrite ascii_compare_refl. apply IH.
  - apply Ascii.compare_eq_iff in Hxy as ->. by rewrite Hyz.
  - apply Ascii.compare_eq_iff in Hyz as <-. by rewrite Hxy.
  - unfold Ascii.compare in *. rewrite N.compare_lt_iff in Hxy, Hyz.
    intros _ _.
    assert ((N_of_ascii x ?= N_of_ascii z)%N = Lt) as ->; [|done].
    apply N.compare_lt_iff. lia.
Qed.

Lemma string_leb_lt a b : String.leb a b = true <-> str_lt a b \/ a = b.
Proof.
  unfold String.leb, str_lt. rewrite <- string_compare_eq.
  destruct (String.compare a b); intuition congruence.
Qed.

Lemma string_leb_trans a b c :
  String.leb a b = true -> String.leb b c = true -> String.leb a c = true.
Proof.
  rewrite !string_leb_lt. intros [Hab| ->] [Hbc| ->]; eauto.
  left. by eapply string_compare_lt_trans.
Qed.

Lemma tuple_leb_total a b : tuple_leb a b = true \/ tuple_leb b a = true.
Proof.
  unfold tuple_leb. rewrite (String.compare_antisym b.1 a.1).
  destruct (String.compare a.1 b.1); simpl; auto. lia.
Qed.

Lemma tuple_leb_trans a b c :
  tuple_leb a b = true -> tuple_leb b c = true -> tuple_leb a c = true.
Proof.
  unfold tuple_leb.
  destruct (String.compare a.1 b.1) eqn:Hab; try done;
    destruct (String.compare b.1 c.1) eqn:Hbc; try done.
  - apply string_compare_eq in Hab, Hbc. rewrite Hab, Hbc, string_compare_refl. lia.
  - apply string_compare_eq in Hab. rewrite Hab, Hbc. done.
  - apply string_compare_eq in Hbc. rewrite <- Hbc, Hab. done.
  - rewrite (string_compare_lt_trans _ _ _ Hab Hbc). done.
Qed.

Lemma tuple_leb_antisym (a b : location) :
  tuple_leb a b = true -> tuple_leb b a = true -> a = b.
Proof.
  unfold tuple_leb. rewrite (String.compare_antisym b.1 a.1).
  destruct a as [a1 a2], b as [b1 b2]; simpl.
  destruct (String.compare a1 b1) eqn:Hab; simpl; try done.
  apply string_compare_eq in Hab as ->. intros. f_equal. lia.
Qed.

(** ** [sorted] *)

Section sorted_facts.
Context {A K : Type} (key : A -> K) (le : K -> K -> bool).
Hypothesis le_total : forall a b, le a b = true \/ le b a = true.
Hypothesis le_trans : forall a b c, le a b = true -> le b c = true -> le a c = true.

Lemma insert_by_perm x l : insert_by key le x l ≡ₚ x :: l.
Proof.
  induction l as [|y l IH]; simpl; [done|].
  destruct (le (key x) (key y)); [done|].
  rewrite IH. apply Permutation_swap.
Qed.

Lemma sorted_perm l : sorted key le l ≡ₚ l.
Proof.
  induction l as [|x l IH]; simpl; [done|].
  fold (sorted key le l). by rewrite insert_by_perm, IH.
Qed.

Lemma insert_by_sorted x l :
  StronglySorted (key_le key le) l ->
  StronglySorted (key_le key le) (insert_by key le x l).
Proof.
  induction 1 as [|y l Hl IH Hy]; simpl.
  - repeat constructor.
  - destruct (le (key x) (key y)) eqn:Hxy.
    + constructor; [by constructor|].
      constructor; [done|].
      eapply Forall_impl; [exact Hy|]. intros z Hyz. by eapply le_trans.
    + constructor; [done|].
      rewrite insert_by_perm. constructor; [|done].
      destruct (le_total (key x) (key y)); [congruence | done].
Qed.

Lemma sorted_sorted l : StronglySorted (key_le key le) (sorted key le l).
Proof.
  induction l as [|x l IH]; simpl; [constructor|].
  by apply insert_by_sorted.
Qed.

Lemma sorted_unique l1 l2 :
  l1 ≡ₚ l2 ->
  (forall x y, x ∈ l1 -> y ∈ l1 -> key_le key le x y -> key_le key le y x -> x = y) ->
  sorted key le l1 = sorted key le l2.
Proof.
  intros Hperm Hanti.
  apply (StronglySorted_unique_strong (key_le key le)); auto using sorted_sorted.
  - intros x y. rewrite !sorted_perm, <- Hperm. apply Hanti.
  - by rewrite !sorted_perm.
Qed.
End sorted_facts.

(** ** Grouping by text *)

Lemma py_not_empty s : py_not s = true <-> s = "".
Proof. by destruct s. Qed.

Lemma add_occurrence_lookup d occ t :
  add_occurrence d occ !! t =
  if decide (msgid occ = t /\ t <> "")
  then Some (default ∅ (d !! t) ∪ {[(path occ, line occ)]})
  else d !! t.
Proof.
  unfold add_occurrence. destruct (py_not (msgid occ)) eqn:Hnot.
  - apply py_not_empty in Hnot. case_decide; [naive_solver | done].
  - assert (msgid occ <> "") by (intros ?%py_not_empty; congruence).
    destruct (decide (msgid occ = t)) as [<-|Hne].
    + rewrite lookup_insert_eq. by rewrite decide_True.
    + rewrite lookup_insert_ne by done. rewrite decide_False; [done | naive_solver].
Qed.

Lemma group_locations_snoc msgs occ :
  group_locations (msgs ++ [occ]) = add_occurrence (group_locations msgs) occ.
Proof. apply foldl_snoc. Qed.

Lemma group_locations_is_Some msgs t :
  is_Some (group_locations msgs !! t) <->
  t <> "" /\ exists m, m ∈ msgs /\ msgid m = t.
Proof.
  induction msgs as [|occ msgs IH] using rev_ind.
  - unfold group_locations. simpl. rewrite lookup_empty, is_Some_alt.
    split; [done|]. intros (_ & m & Hm & _). by apply elem_of_nil in Hm.
  - rewrite group_locations_snoc, add_occurrence_lookup.
    setoid_rewrite elem_of_app. setoid_rewrite list_elem_of_singleton.
    case_decide as Hocc.
    + split; [|by eauto]. intros _. split; [tauto|]. exists occ. tauto.
    + rewrite IH. split; [naive_solver|].
      intros (Ht & m & [Hm| ->] & Hid); [eauto | tauto].
Qed.

Lemma group_locations_elem_of msgs t (l : location) :
  l ∈ default ∅ (group_locations msgs !! t) <->
  t <> "" /\ exists m, m ∈ msgs /\ msgid m = t /\ l = (path m, line m).
Proof.
  induction msgs as [|occ msgs IH] using rev_ind.
  - unfold group_locations. simpl. rewrite lookup_empty. simpl.
    split; [set_solver|]. intros (_ & m & Hm & _). by apply elem_of_nil in Hm.
  - rewrite group_locations_snoc, add_occurrence_lookup.
    setoid_rewrite elem_of_app. setoid_rewrite list_elem_of_singleton.
    case_decide as Hocc; simpl.
    + rewrite elem_of_union, elem_of_singleton, IH. naive_solver.
    + rewrite IH. split; [naive_solver|].
      intros (Ht & m & [Hm| ->] & Hid & Hl); [eauto 6 | tauto].
Qed.

Lemma group_locations_filter msgs :
  group_locations (filter (fun m => msgid m <> "") msgs) = group_locations msgs.
Proof.
  induction msgs as [|occ msgs IH] using rev_ind; [done|].
  rewrite filter_app, group_locations_snoc.
  rewrite filter_cons. case_decide as Hocc; simpl.
  - by rewrite group_locations_snoc, IH.
  - rewrite app_nil_r, IH. unfold add_occurrence.
    destruct (decide (msgid occ = "")) as [->|]; [done | tauto].
Qed.

(** ** The entries of the catalog *)

Lemma string_leb_total a b : String.leb a b = true \/ String.leb b a = true.
Proof. apply String.leb_total. Qed.

Lemma sorted_locations_iteration (it : Iteration) (s : gset location) :
  sorted (fun t : location => (t.1, t.2)) tuple_leb (set_iter it s) =
  sorted (fun t : location => (t.1, t.2)) tuple_leb (elements s).
Proof.
  apply sorted_unique.
  - apply tuple_leb_total.
  - apply tuple_leb_trans.
  - apply set_iter_perm.
  - intros [x1 x2] [y1 y2] _ _. unfold key_le; simpl. apply tuple_leb_antisym.
Qed.

Lemma sorted_items_iteration (it : Iteration) (d : gmap string (gset location)) :
  sorted fst String.leb (dict_items it d) = sorted fst String.leb (map_to_list d).
Proof.
  apply sorted_unique.
  - apply string_leb_total.
  - apply string_leb_trans.
  - apply dict_items_perm.
  - intros [k1 v1] [k2 v2]. rewrite !dict_items_perm, !elem_of_map_to_list.
    unfold key_le; simpl. intros Hv1 Hv2 H12 H21.
    assert (k1 = k2) as -> by by apply String.leb_antisym.
    congruence.
Qed.

Lemma build_pot_iteration (it : Iteration) (now : datetime) messages :
  build_pot it now messages = build_pot default_iteration now messages.
Proof.
  unfold build_pot. f_equal. rewrite sorted_items_iteration. simpl.
  apply list_fmap_ext. intros _ [k v] _. simpl. f_equal.
  apply sorted_locations_iteration.
Qed.

Lemma catalog_entry (it : Iteration) (now : datetime) messages t locs :
  (t, locs) ∈ catalog_messages (build_pot it now messages) <->
  exists s, group_locations messages !! t = Some s /\
    locs = sorted (fun l : location => (l.1, l.2)) tuple_leb (set_iter it s).
Proof.
  unfold build_pot; simpl. rewrite list_elem_of_fmap. split.
  - intros ([k v] & [= -> ->] & Hin).
    rewrite sorted_perm, dict_items_perm, elem_of_map_to_list in Hin. eauto.
  - intros (s & Hs & ->). exists (t, s). split; [done|].
    by rewrite sorted_perm, dict_items_perm, elem_of_map_to_list.
Qed.

Lemma catalog_keys (it : Iteration) (now : datetime) messages :
  (catalog_messages (build_pot it now messages)).*1 =
  (sorted fst String.leb (dict_items it (group_locations messages))).*1.
Proof. unfold build_pot; simpl. rewrite <- list_fmap_compose. done. Qed.

Lemma catalog_keys_NoDup (it : Iteration) (now : datetime) messages :
  NoDup (catalog_messages (build_pot it now messages)).*1.
Proof.
  rewrite catalog_keys, sorted_perm, dict_items_perm.
  apply NoDup_fst_map_to_list.
Qed.

Lemma catalog_keys_elem_of (it : Iteration) (now : datetime) messages t :
  t ∈ (catalog_messages (build_pot it now messages)).*1 <->
  t <> "" /\ exists m, m ∈ messages /\ msgid m = t.
Proof.
  rewrite <- group_locations_is_Some.
  rewrite catalog_keys, sorted_perm, dict_items_perm, list_elem_of_fmap.
  split.
  - intros ([k v] & -> & Hin%elem_of_map_to_list). by exists v.
  - intros [v Hv]. exists (t, v). by rewrite elem_of_map_to_list.
Qed.

Lemma strictly_sorted {A} (key : A -> string) (l : list A) :
  StronglySorted (key_le key String.leb) l ->
  NoDup (key <$> l) ->
  StronglySorted str_lt (key <$> l).
Proof.
  induction 1 as [|x l Hl IH Hx]; csimpl; intros Hnd; [constructor|].
  apply NoDup_cons in Hnd as [Hnotin Hnd].
  constructor; [by apply IH|].
  rewrite Forall_fmap. rewrite Forall_forall in Hx |- *.
  intros y Hy. simpl.
  destruct (proj1 (string_leb_lt (key x) (key y)) (Hx y Hy)) as [Hlt|Heq]; [done|].
  destruct Hnotin. rewrite Heq. by apply list_elem_of_fmap_2.
Qed.

Lemma catalog_keys_sorted (it : Iteration) (now : datetime) messages :
  StronglySorted str_lt (catalog_messages (build_pot it now messages)).*1.
Proof.
  pose proof (catalog_keys_NoDup it now messages) as Hnd.
  rewrite catalog_keys in Hnd |- *.
  apply strictly_sorted; [|done].
  apply sorted_sorted; [apply string_leb_total | apply string_leb_trans].
Qed.

(** With every line number 0, the tuples are ordered as their paths. *)
Lemma insert_by_path (x : location) (s : list location) :
  x.2 = 0 -> Forall (fun l => l.2 = 0) s ->
  insert_by (fun t : location => (t.1, t.2)) tuple_leb x s =
  insert_by fst String.leb x s.
Proof.
  intros Hx. induction 1 as [|y s Hy Hs IH]; simpl; [done|].
  rewrite IH. unfold tuple_leb, String.leb; simpl. rewrite Hx, Hy.
  by destruct (String.compare x.1 y.1).
Qed.

Lemma sorted_by_path (s : list location) :
  Forall (fun l => l.2 = 0) s ->
  sorted (fun t : location => (t.1, t.2)) tuple_leb s = sorted fst String.leb s.
Proof.
  induction 1 as [|x s Hx Hs IH]; simpl; [done|].
  fold (sorted (fun t : location => (t.1, t.2)) tuple_leb s).
  fold (sorted (@fst string Z) String.leb s). rewrite IH.
  apply insert_by_path; [done|]. by rewrite sorted_perm.
Qed.

Lemma catalog_locations (it : Iteration) (now : datetime) messages t locs :
  (t, locs) ∈ catalog_messages (build_pot it now messages) ->
  (forall l, l ∈ locs <->
     exists m, m ∈ messages /\ msgid m = t /\ l = (path m, line m)) /\
  NoDup locs /\
  Forall (fun l => l.2 = 0) locs /\
  StronglySorted str_lt locs.*1.
Proof.
  intros (s & Hs & ->)%catalog_entry.
  assert (forall l, l ∈ s <->
            exists m, m ∈ messages /\ msgid m = t /\ l = (path m, line m)) as Hmem.
  { intros l. pose proof (group_locations_elem_of messages t l) as Hl.
    pose proof (proj1 (group_locations_is_Some messages t)) as Hne.
    rewrite Hs in Hl, Hne. simpl in Hl. rewrite Hl.
    destruct Hne as [Hne _]; [by eexists|]. tauto. }
  assert (Forall (fun l : location => l.2 = 0) (set_iter it s)) as Hzero.
  { apply Forall_forall. intros l. rewrite set_iter_perm, elem_of_elements, Hmem.
    by intros (m & _ & _ & ->). }
  assert (NoDup (set_iter it s)) as Hnd.
  { rewrite set_iter_perm. apply NoDup_elements. }
  rewrite sorted_by_path by done.
  split; [|split; [|split]].
  - intros l. by rewrite sorted_perm, set_iter_perm, elem_of_elements.
  - by rewrite sorted_perm.
  - by rewrite sorted_perm.
  - apply strictly_sorted.
    + apply sorted_sorted; [apply string_leb_total | apply string_leb_trans].
    + rewrite sorted_perm. apply NoDup_fmap_2_strong; [|done].
      rewrite Forall_forall in Hzero.
      intros [p1 z1] [p2 z2] H1%Hzero H2%Hzero. simpl in *. congruence.
Qed.

Lemma filter_key_absent {A} (l : list (string * A)) t :
  t ∉ l.*1 -> filter (fun e => e.1 = t) l = [].
Proof.
  induction l as [|[k w] l IH]; csimpl; intros Hnotin; [done|].
  apply not_elem_of_cons in Hnotin as [Hne Hnotin].
  rewrite filter_cons. simpl. rewrite decide_False by done. by apply IH.
Qed.

Lemma filter_key {A} (l : list (string * A)) t v :
  NoDup l.*1 -> (t, v) ∈ l -> filter (fun e => e.1 = t) l = [(t, v)].
Proof.
  induction l as [|[k w] l IH]; csimpl; intros Hnd Hin.
  - by apply elem_of_nil in Hin.
  - apply NoDup_cons in Hnd as [Hk Hnd].
    rewrite filter_cons. simpl. apply elem_of_cons in Hin as [[= <- <-]|Hin].
    + rewrite decide_True by done. f_equal. by apply filter_key_absent.
    + rewrite decide_False; [by apply IH|].
      intros ->. apply Hk. by apply (list_elem_of_fmap_2 fst) in Hin.
Qed.

(** ** The catalog *)

(** C1. Two records of the input with the same non-empty text give one
    catalog entry for that text.  Its locations are those of all the records
    with that text, the two included, each once however often a (text,
    location) pair occurs, in strictly increasing order of the location
    string. *)
Theorem shared_text_single_entry (it : Iteration) (now : datetime) messages m1 m2 :
  m1 ∈ messages -> m2 ∈ messages ->
  msgid m1 = msgid m2 -> msgid m1 <> "" ->
  exists locs,
    filter (fun e => e.1 = msgid m1) (catalog_messages (build_pot it now messages))
      = [(msgid m1, locs)] /\
    (forall l, l ∈ locs <->
       exists m, m ∈ messages /\ msgid m = msgid m1 /\ l = (path m, line m)) /\
    (path m1, 0) ∈ locs /\ (path m2, 0) ∈ locs /\
    NoDup locs /\
    StronglySorted str_lt locs.*1.
Proof.
  intros Hm1 Hm2 Hid Hne.
  assert (msgid m1 ∈ (catalog_messages (build_pot it now messages)).*1) as Hkey.
  { apply catalog_keys_elem_of. eauto. }
  apply list_elem_of_fmap in Hkey as ([t locs] & Ht & Hentry). simpl in Ht. subst t.
  destruct (catalog_locations it now messages _ _ Hentry) as (Hmem & Hnd & _ & Hsorted).
  exists locs. split; [|split; [|split; [|split]]]; try done.
  - apply filter_key; [apply catalog_keys_NoDup | done].
  - apply Hmem. by exists m1.
  - apply Hmem. by exists m2.
Qed.

(** C3. The texts of the catalog entries are the non-empty texts of the
    input, each once, in strictly increasing order. *)
Theorem catalog_entries_unique_sorted (it : Iteration) (now : datetime) messages :
  (forall t, t ∈ (catalog_messages (build_pot it now messages)).*1 <->
     t <> "" /\ exists m, m ∈ messages /\ msgid m = t) /\
  NoDup (catalog_messages (build_pot it now messages)).*1 /\
  StronglySorted str_lt (catalog_messages (build_pot it now messages)).*1.
Proof.
  split; [|split].
  - apply catalog_keys_elem_of.
  - apply catalog_keys_NoDup.
  - apply catalog_keys_sorted.
Qed.

(** C9. Every extracted message has line 0, every location of the catalog
    has line 0, and the catalog is the one obtained by sorting the locations
    by their path alone. *)
Theorem locations_have_line_zero (it : Iteration) (now : datetime) messages :
  Forall (fun m => line m = 0) messages /\
  Forall (fun e => Forall (fun l => l.2 = 0) e.2)
    (catalog_messages (build_pot it now messages)) /\
  catalog_messages (build_pot it now messages) = catalog_messages_by_path it messages.
Proof.
  split; [|split].
  - by apply Forall_forall.
  - apply Forall_forall. intros [t locs] Hentry.
    by destruct (catalog_locations it now messages _ _ Hentry) as (_ & _ & Hzero & _).
  - unfold build_pot, catalog_messages_by_path; simpl.
    apply list_fmap_ext. intros i [t s] Hin. simpl. f_equal.
    apply sorted_by_path, Forall_forall. intros l Hl.
    assert ((t, sorted (fun l : location => (l.1, l.2)) tuple_leb (set_iter it s))
              ∈ catalog_messages (build_pot it now messages)) as Hentry.
    { apply catalog_entry. exists s. split; [|done].
      apply list_elem_of_lookup_2 in Hin.
      by rewrite sorted_perm, dict_items_perm, elem_of_map_to_list in Hin. }
    destruct (catalog_locations it now messages _ _ Hentry) as (Hmem & _).
    assert (l ∈ sorted (fun l : location => (l.1, l.2)) tuple_leb (set_iter it s))
      as (m & _ & _ & ->)%Hmem; [by rewrite sorted_perm | done].
Qed.

(** ** Empty texts *)

Lemma question_emits_title km fuel q msgs :
  exists rest,
    (_extract_messages_question km (S fuel) (Some q) msgs).2 =
    msgs ++ question_title_message q :: rest.
Proof.
  rewrite (appends_question km (S fuel) (Some q) msgs). cbn [snd].
  rewrite question_unfold.
  match goal with
  | |- context [emitted (?m ;; ?k)] =>
      destruct (run_bind m (fun _ => k)) as [_ ->];
        [apply appends_append | intros _ |]
  end.
  - repeat appends_step;
      auto using appends_choice, appends_reference, appends_answer, appends_question.
  - simpl. eauto.
Qed.

Lemma append_first (m : ExtractedMessage) (k : M unit) msgs :
  appends k ->
  exists rest, ((append m ;; k) msgs).2 = msgs ++ m :: rest.
Proof.
  intros Hk. exists (emitted k). unfold bind, append.
  rewrite (Hk (msgs ++ [m])). simpl. by rewrite <- app_assoc.
Qed.

Lemma appends_resource_page rp : appends (_extract_messages_resource_page rp).
Proof. unfold _extract_messages_resource_page. repeat appends_step. Qed.

(** C2. Every visitor appends the record of its always-present field
    whatever the value, the empty text included: the title of a chapter, a
    question, a phase, a metric, a resource collection and a resource page,
    the label of a choice, an answer and a URL reference, the description of
    a cross reference, the name of a tag.  So a question whose title is empty
    still gets its title record, with the empty text.  The catalog built from
    any list of messages has no entry with the empty text, and it is the
    catalog built from the messages with a non-empty text alone. *)
Theorem empty_texts_dropped (it : Iteration) (now : datetime) km fuel uuid text items
    choice_ids answer_ids refs msgs :
  let q := {| question_uuid := uuid; question_title := ""; question_text := text;
              as_list_question := items; as_multi_choice_question := choice_ids;
              as_options_question := answer_ids; reference_uuids := refs |} in
  (exists rest,
     (_extract_messages_question km (S fuel) (Some q) msgs).2 =
     msgs ++ {| msgid := ""; entity_type := "question"; entity_uuid := uuid;
                entity_attribute := "title" |} :: rest) /\
  (forall messages,
     ("" ∉ (catalog_messages (build_pot it now messages)).*1) /\
     build_pot it now messages
     = build_pot it now (filter (fun m => msgid m <> "") messages)) /\
  (forall chapter, exists rest,
     (_extract_messages_chapter km fuel (Some chapter) msgs).2 =
     msgs ++ chapter_title_message chapter :: rest) /\
  (forall question, exists rest,
     (_extract_messages_question km (S fuel) (Some question) msgs).2 =
     msgs ++ question_title_message question :: rest) /\
  (forall choice,
     (_extract_messages_choice (Some choice) msgs).2 =
     msgs ++ [choice_label_message choice]) /\
  (forall answer, exists rest,
     (_extract_messages_answer km fuel (Some answer) msgs).2 =
     msgs ++ answer_label_message answer :: rest) /\
  (forall reference,
     (_extract_messages_reference (Some reference) msgs).2 =
     msgs ++ reference_messages (Some reference)) /\
  (forall phase, exists rest,
     (_extract_messages_phase (Some phase) msgs).2 =
     msgs ++ phase_title_message phase :: rest) /\
  (forall tag, exists rest,
     (_extract_messages_tag (Some tag) msgs).2 =
     msgs ++ tag_name_message tag :: rest) /\
  (forall metric, exists rest,
     (_extract_messages_metric (Some metric) msgs).2 =
     msgs ++ metric_title_message metric :: rest) /\
  (forall rc, exists rest,
     (_extract_messages_resource_collection km (Some rc) msgs).2 =
     msgs ++ resource_collection_title_message rc :: rest) /\
  (forall rp, exists rest,
     (_extract_messages_resource_page (Some rp) msgs).2 =
     msgs ++ resource_page_title_message rp :: rest).
Proof.
  intros q. repeat split.
  - apply (question_emits_title km fuel q msgs).
  - rewrite catalog_keys_elem_of. tauto.
  - unfold build_pot. by rewrite group_locations_filter.
  - intros chapter. apply append_first. visitor_appends.
  - intros question. apply question_emits_title.
  - intros answer. apply append_first. visitor_appends.
  - intros reference. rewrite (appends_reference (Some reference) msgs). simpl.
    f_equal. unfold emitted, _extract_messages_reference, reference_messages. simpl.
    by destruct (as_url_reference reference), (as_cross_reference reference).
  - intros phase. apply append_first. visitor_appends.
  - intros tag. apply append_first. visitor_appends.
  - intros metric. apply append_first. visitor_appends.
  - intros rc. apply append_first. apply appends_for_each. intros.
    apply appends_resource_page.
  - intros rp. apply append_first. visitor_appends.
Qed.

(** ** Runs of the script *)

Lemma main_iteration (it1 it2 : Iteration) now fuel km :
  main it1 now fuel km = main it2 now fuel km.
Proof.
  unfold main. destruct (extract_messages fuel (__init__ km)) as [[[]| |] self]; try done.
  by rewrite (build_pot_iteration it1), (build_pot_iteration it2).
Qed.



(** C5. The script on [km_intro], with any enumeration order, at any time and
    with any fuel from 2 on, gives the catalog with the three entries of the
    scenario. *)
Theorem intro_scenario (it : Iteration) (now : datetime) fuel :
  main it now (S (S fuel)) km_intro =
  Ok {| project := "Common DSW Knowledge Model"; version := "2.7.0";
        charset := "utf-8"; creation_date := now;
        catalog_messages :=
          [ ("Intro", [("chapter:C1:title", 0)]);
            ("Name?", [("question:Q1:title", 0)]);
            ("See docs", [("url-reference:R1:label", 0)]) ] |}.
Proof.
  rewrite (main_iteration it default_iteration).
  rewrite (main_fuel default_iteration now 2); [| lia |].
  - vm_compute. reflexivity.
  - vm_compute. discriminate.
Qed.



(** C10. [extract_messages] starts from the cleared list: a second call on
    the same extractor ends as the first did and leaves the same messages,
    which are those of one traversal, whatever the extractor had accumulated
    before.  The traversal by itself appends to what the list holds, so it is
    the reset that keeps earlier results out. *)
Theorem extract_messages_repeatable fuel self :
  (extract_messages fuel (extract_messages fuel self).2).1
    = (extract_messages fuel self).1 /\
  self_messages (extract_messages fuel (extract_messages fuel self).2).2
    = self_messages (extract_messages fuel self).2 /\
  self_messages (extract_messages fuel self).2
    = emitted (extract_chapters (self_km self) fuel) /\
  self_messages (reset self) = [] /\
  (extract_chapters (self_km self) fuel (self_messages self)).2
    = self_messages self ++ emitted (extract_chapters (self_km self) fuel).
Proof.
  split; [|split; [|split; [|split]]].
  4: done.
  4: by rewrite (appends_chapters (self_km self) fuel (self_messages self)).
  all: unfold extract_messages, emitted; simpl.
  all: destruct (extract_chapters (self_km self) fuel []) as [r msgs] eqn:Hrun; simpl.
  all: by rewrite ?Hrun.
Qed.

(** ** Identifiers that the registry does not hold *)

Lemma for_each_resolved {A} (xs : list A) (body : A -> M unit) (resolved : A -> bool) :
  (forall x, appends (body x)) ->
  (forall x, status (body x) = Ok tt -> resolved x = true) ->
  status (for_each xs body) = Ok tt ->
  forallb resolved xs = true.
Proof.
  intros Happ Hres Hok. apply for_each_ok in Hok as [Hall _]; [|done].
  apply forallb_forall. rewrite Forall_forall in Hall.
  intros x Hx%list_elem_of_In. by apply Hres, Hall.
Qed.

Lemma choice_ok_resolved km choice_uuid :
  status (_extract_messages_choice (choices (entities km) !! choice_uuid)) = Ok tt <->
  choice_resolved km choice_uuid = true.
Proof.
  unfold choice_resolved. rewrite bool_decide_eq_true.
  destruct (choices (entities km) !! choice_uuid); simpl.
  - split; [by eexists | done].
  - split; [done | by intros [? ?]].
Qed.

Lemma answer_ok_resolved km visit (resolved : string -> bool) answer_uuid :
  (forall q, appends (visit q)) ->
  (forall question_uuid,
     status (visit (questions (entities km) !! question_uuid)) = Ok tt ->
     resolved question_uuid = true) ->
  status (extract_messages_answer_body km visit (answers (entities km) !! answer_uuid))
    = Ok tt ->
  match answers (entities km) !! answer_uuid with
  | None => false
  | Some a => forallb resolved (follow_up_uuids a)
  end = true.
Proof.
  intros Happ Hres. unfold extract_messages_answer_body.
  destruct (answers (entities km) !! answer_uuid) as [a|]; [|done].
  change (node (Some a) "label") with (ret a). rewrite bind_ret. intros Hok.
  apply seq_ok in Hok as (_ & Hok & _); [| repeat appends_step; apply Happ ..].
  apply seq_ok in Hok as (_ & Hok & _); [| repeat appends_step; apply Happ ..].
  apply (for_each_resolved _ _ resolved) in Hok;
    [done | intros; apply Happ | intros; by apply Hres].
Qed.

Lemma question_ok_check km at_limit fuel question_uuid :
  status (_extract_messages_question km fuel (questions (entities km) !! question_uuid))
    = Ok tt ->
  question_check km at_limit fuel question_uuid = true.
Proof.
  revert question_uuid. induction fuel as [|fuel IH]; intros question_uuid; [done|].
  cbn [question_check].
  destruct (questions (entities km) !! question_uuid) as [q|]; [|done].
  intros (Hitems & Hchoices & Hanswers & _)%question_ok.
  rewrite !andb_true_iff. split; [split|].
  - apply (for_each_resolved _ _ (question_check km at_limit fuel)) in Hitems;
      [done | intros; apply appends_question | done].
  - apply (for_each_resolved _ _ (choice_resolved km)) in Hchoices;
      [done | intros; apply appends_choice | intros; by apply choice_ok_resolved].
  - eapply for_each_resolved; [| |exact Hanswers]; [intros; apply appends_answer|].
    intros answer_uuid. apply answer_ok_resolved; [apply appends_question | done].
Qed.

Lemma chapters_ok_check km at_limit fuel :
  status (extract_chapters km fuel) = Ok tt -> chapters_check km at_limit fuel = true.
Proof.
  unfold extract_chapters, chapters_check.
  apply for_each_resolved; [intros; apply appends_chapter|].
  intros chapter_uuid. unfold _extract_messages_chapter.
  destruct (chapters (entities km) !! chapter_uuid) as [c|]; [|done].
  change (node (Some c) "title") with (ret c). rewrite bind_ret. intros Hok.
  apply seq_ok in Hok as (_ & Hok & _);
    [| repeat appends_step; apply appends_question ..].
  apply seq_ok in Hok as (_ & Hok & _);
    [| repeat appends_step; apply appends_question ..].
  apply (for_each_resolved _ _ (question_check km at_limit fuel)) in Hok;
    [done | intros; apply appends_question | intros; by apply question_ok_check].
Qed.

(** Conversely, a model whose identifiers resolve and whose questions nest
    less than [fuel] levels deep makes the traversal return. *)

Lemma status_seq (m k : M unit) :
  appends m -> appends k -> status m = Ok tt -> status (m ;; k) = status k.
Proof.
  intros Hm Hk Hok.
  destruct (run_bind m (fun _ => k) Hm (fun _ => Hk)) as [-> _]. by rewrite Hok.
Qed.

Lemma status_for_each {A} (xs : list A) (body : A -> M unit) (check : A -> bool) :
  (forall x, appends (body x)) ->
  (forall x, check x = true -> status (body x) = Ok tt) ->
  forallb check xs = true ->
  status (for_each xs body) = Ok tt.
Proof.
  intros Happ Hbody. induction xs as [|x xs IH]; simpl; [done|].
  intros [Hx Hxs]%andb_true_iff.
  rewrite status_seq; auto using @appends_for_each.
Qed.

Lemma status_if_truthy value (m : string -> ExtractedMessage) :
  status (if_truthy value (fun s => append (m s))) = Ok tt.
Proof. by destruct value as [[|c s]|]. Qed.

Lemma status_reference reference :
  status (_extract_messages_reference reference) = Ok tt.
Proof.
  destruct reference as [r|]; [|done]. unfold _extract_messages_reference. simpl.
  by destruct (as_url_reference r), (as_cross_reference r).
Qed.

Lemma answer_check_ok km visit (check : string -> bool) answer_uuid :
  (forall q, appends (visit q)) ->
  (forall question_uuid,
     check question_uuid = true ->
     status (visit (questions (entities km) !! question_uuid)) = Ok tt) ->
  match answers (entities km) !! answer_uuid with
  | None => false
  | Some a => forallb check (follow_up_uuids a)
  end = true ->
  status (extract_messages_answer_body km visit (answers (entities km) !! answer_uuid))
    = Ok tt.
Proof.
  intros Happ Hvisit. unfold extract_messages_answer_body.
  destruct (answers (entities km) !! answer_uuid) as [a|]; [|done].
  change (node (Some a) "label") with (ret a). rewrite bind_ret. intros Hcheck.
  rewrite status_seq; [| repeat appends_step; apply Happ ..| done].
  rewrite status_seq;
    [| repeat appends_step; apply Happ ..| apply status_if_truthy].
  apply (status_for_each _ _ check); [intros; apply Happ | done | done].
Qed.

Lemma question_within_ok km fuel question_uuid :
  question_check km false fuel question_uuid = true ->
  status (_extract_messages_question km fuel (questions (entities km) !! question_uuid))
    = Ok tt.
Proof.
  revert question_uuid. induction fuel as [|fuel IH]; intros question_uuid; [done|].
  cbn [question_check].
  destruct (questions (entities km) !! question_uuid) as [q|]; [|done].
  rewrite !andb_true_iff. intros [[Hitems Hchoices] Hanswers].
  rewrite question_unfold.
  rewrite status_seq; [|visitor_appends..|done].
  rewrite status_seq; [|visitor_appends..|apply status_if_truthy].
  rewrite status_seq; [|visitor_appends..|].
  2: { apply (status_for_each _ _ (question_check km false fuel));
         [intros; apply appends_question | done | done]. }
  rewrite status_seq; [|visitor_appends..|].
  2: { apply (status_for_each _ _ (choice_resolved km));
         [intros; apply appends_choice | intros; by apply choice_ok_resolved | done]. }
  rewrite status_seq; [|visitor_appends..|].
  2: { eapply status_for_each; [intros; apply appends_answer| |exact Hanswers].
       intros answer_uuid. apply answer_check_ok; [apply appends_question | done]. }
  apply (status_for_each _ _ (fun _ => true));
    [intros; apply appends_reference | intros; apply status_reference |].
  by apply forallb_forall.
Qed.

Lemma chapters_within_ok km fuel :
  chapters_within km fuel = true -> status (extract_chapters km fuel) = Ok tt.
Proof.
  unfold extract_chapters, chapters_within, chapters_check.
  apply status_for_each; [intros; apply appends_chapter|].
  intros chapter_uuid. unfold _extract_messages_chapter.
  destruct (chapters (entities km) !! chapter_uuid) as [c|]; [|done].
  change (node (Some c) "title") with (ret c). rewrite bind_ret. intros Hcheck.
  rewrite status_seq; [| repeat appends_step; apply appends_question ..| done].
  rewrite status_seq;
    [| repeat appends_step; apply appends_question ..| apply status_if_truthy].
  apply (status_for_each _ _ (question_check km false fuel));
    [intros; apply appends_question | intros; by apply question_within_ok | done].
Qed.

(** [extract_messages] returns exactly on the models whose identifiers resolve
    within the nesting depth that the fuel allows. *)
Lemma extract_messages_returns fuel self :
  (extract_messages fuel self).1 = Ok tt <-> chapters_within (self_km self) fuel = true.
Proof.
  unfold extract_messages. simpl.
  pose proof (chapters_ok_check (self_km self) false fuel) as Hok.
  pose proof (chapters_within_ok (self_km self) fuel) as Hwithin.
  unfold status in Hok, Hwithin.
  destruct (extract_chapters (self_km self) fuel []) as [r msgs]; simpl in *.
  split; auto.
Qed.

(** The visitor of resource collections, which [extract_messages] does not
    call, fails in the same way on a page that the registry does not hold. *)
Lemma resource_page_none msgs :
  _extract_messages_resource_page None msgs
  = (Raise (AttributeError "NoneType" "title"), msgs).
Proof. reflexivity. Qed.

(** C4, as the code has it.  When the traversal from the chapter list meets
    the identifier of a chapter, question, choice or answer that the registry
    does not hold, a run that ends aborts with the [AttributeError] of reading
    [title] or [label] on [None]: one of two fixed errors, which carry neither
    the identifier nor the entity type. *)
Theorem dangling_identifier_aborts fuel self :
  chapters_resolved (self_km self) fuel = false ->
  (extract_messages fuel self).1 <> OutOfFuel ->
  exists attribute,
    (attribute = "title" \/ attribute = "label") /\
    (extract_messages fuel self).1 = Raise (AttributeError "NoneType" attribute).
Proof.
  intros Hdangling. unfold extract_messages. simpl.
  pose proof (chapters_ok_check (self_km self) true fuel) as Hok.
  unfold chapters_resolved in Hdangling.
  destruct (run_inv_chapters (self_km self) fuel [] (List.Forall_nil _)) as [_ Herr].
  unfold status in Hok.
  destruct (extract_chapters (self_km self) fuel []) as [[[]|e|] msgs]; simpl in *.
  - rewrite Hok in Hdangling; [discriminate | done].
  - intros _. destruct (Herr e eq_refl) as [-> | ->]; eauto.
  - done.
Qed.

(** The run on [km_missing_question]. *)
Lemma dangling_identifier_aborts_witness :
  exists attribute,
    (attribute = "title" \/ attribute = "label") /\
    (extract_messages 2 (__init__ km_missing_question)).1
      = Raise (AttributeError "NoneType" attribute).
Proof.
  apply dangling_identifier_aborts.
  - vm_compute. reflexivity.
  - vm_compute. discriminate.
Defined.

(** C4 fails as stated.  The run on [km_missing_question] aborts with an error
    whose message holds neither [Q9] nor the entity type, and the run on
    [km_missing_reference] returns normally, the absent reference [R9] passed
    over. *)
Lemma dangling_identifier_counterexample :
  (extract_messages 2 (__init__ km_missing_question)).1
    = Raise (AttributeError "NoneType" "title") /\
  exn_message (AttributeError "NoneType" "title")
    = "'NoneType' object has no attribute 'title'" /\
  ~ aborts_naming_claim km_missing_question "Q9" "question" /\
  (extract_messages 2 (__init__ km_missing_reference)).1 = Ok tt /\
  ~ aborts_naming_claim km_missing_reference "R9" "reference".
Proof.
  split; [by vm_compute|]. split; [by vm_compute|]. split; [|split; [by vm_compute|]].
  - intros Hclaim. destruct (Hclaim 2%nat) as (e & He & Hid & _).
    + vm_compute. discriminate.
    + vm_compute in He. injection He as <-. vm_compute in Hid. discriminate.
  - intros Hclaim. destruct (Hclaim 2%nat) as (e & He & _).
    + vm_compute. discriminate.
    + vm_compute in He. discriminate.
Qed.

(** ** Instances *)

(** Two choices with the label "Yes": one entry, the location of [A] before
    that of [B]. *)
Lemma shared_text_single_entry_witness :
  exists locs,
    filter (fun e => e.1 = "Yes")
      (catalog_messages (build_pot default_iteration 0 [message_yes_b; message_yes_a]))
      = [("Yes", locs)] /\
    (forall l, l ∈ locs <->
       exists m, m ∈ [message_yes_b; message_yes_a] /\ msgid m = "Yes" /\
                 l = (path m, line m)) /\
    ("choice:B:label", 0) ∈ locs /\ ("choice:A:label", 0) ∈ locs /\
    NoDup locs /\
    StronglySorted str_lt locs.*1.
Proof.
  apply (shared_text_single_entry default_iteration 0
           [message_yes_b; message_yes_a] message_yes_b message_yes_a).
  - apply list_elem_of_here.
  - apply list_elem_of_further, list_elem_of_here.
  - reflexivity.
  - discriminate.
Defined.

(** The visit of [question_agree] in [km_choices]: its choices and its answer
    are both visited, the reference last. *)
Lemma question_visit_order_witness :
  _extract_messages_question km_choices 2 (Some question_agree) [] =
    (Ok tt,
     [ {| msgid := "Agree?"; entity_type := "question"; entity_uuid := "Q1";
          entity_attribute := "title" |};
       {| msgid := "Pick"; entity_type := "question"; entity_uuid := "Q1";
          entity_attribute := "text" |};
       message_yes_b; message_yes_a;
       {| msgid := "No"; entity_type := "answer"; entity_uuid := "N";
          entity_attribute := "label" |};
       {| msgid := "Yes"; entity_type := "answer"; entity_uuid := "N";
          entity_attribute := "advice" |};
       {| msgid := ""; entity_type := "question"; entity_uuid := "Q2";
          entity_attribute := "title" |};
       {| msgid := "See docs"; entity_type := "url-reference"; entity_uuid := "R1";
          entity_attribute := "label" |} ]) /\
  exists msgs',
    msgs' =
      [] ++ question_title_message question_agree
      :: question_text_messages question_agree
      ++ flat_map (fun question_uuid =>
           emitted (_extract_messages_question km_choices 1
                      (questions (entities km_choices) !! question_uuid)))
           (default [] (as_list_question question_agree))
      ++ flat_map (fun choice_uuid =>
           emitted (_extract_messages_choice
                      (choices (entities km_choices) !! choice_uuid)))
           (default [] (as_multi_choice_question question_agree))
      ++ flat_map (fun answer_uuid =>
           emitted (_extract_messages_answer km_choices 1
                      (answers (entities km_choices) !! answer_uuid)))
           (default [] (as_options_question question_agree))
      ++ flat_map (fun reference_uuid =>
           emitted (_extract_messages_reference
                      (references (entities km_choices) !! reference_uuid)))
           (reference_uuids question_agree).
Proof.
  split; [vm_compute; reflexivity|].
  eexists. apply (question_visit_order km_choices 1 question_agree []).
  vm_compute. reflexivity.
Defined.


(** * Further properties of the script *)

(** ** The other visitors *)

Lemma if_truthy_chapter_text c :
  emitted (if_truthy (chapter_text c) (fun text =>
    append {| msgid := text; entity_type := "chapter";
              entity_uuid := chapter_uuid c; entity_attribute := "text" |}))
  = chapter_text_messages c.
Proof. unfold chapter_text_messages. by destruct (chapter_text c) as [[|ch s]|]. Qed.

Lemma if_truthy_answer_advice a :
  emitted (if_truthy (answer_advice a) (fun advice =>
    append {| msgid := advice; entity_type := "answer";
              entity_uuid := answer_uuid a; entity_attribute := "advice" |}))
  = answer_advice_messages a.
Proof. unfold answer_advice_messages. by destruct (answer_advice a) as [[|ch s]|]. Qed.

(** X1. A visit of a chapter that returns has appended the title record, the
    text record when the text is non-empty, and then the records of its
    questions in the declared order. *)
Theorem chapter_visit_order km fuel c msgs msgs' :
  _extract_messages_chapter km fuel (Some c) msgs = (Ok tt, msgs') ->
  msgs' =
    msgs ++ chapter_title_message c :: chapter_text_messages c
    ++ flat_map (fun question_uuid =>
         emitted (_extract_messages_question km fuel
                    (questions (entities km) !! question_uuid)))
         (question_uuids c).
Proof.
  intros Hrun.
  assert (status (_extract_messages_chapter km fuel (Some c)) = Ok tt /\
          msgs' = msgs ++ emitted (_extract_messages_chapter km fuel (Some c)))
    as [Hok ->].
  { rewrite (appends_chapter km fuel (Some c) msgs) in Hrun. split; congruence. }
  f_equal. revert Hok. unfold _extract_messages_chapter.
  change (node (Some c) "title") with (ret c). rewrite bind_ret. intros Hok.
  apply seq_ok in Hok as (_ & Hok & ->); [|visitor_appends..].
  apply seq_ok in Hok as (_ & Hok & ->); [|visitor_appends..].
  rewrite if_truthy_chapter_text, for_each_emitted; auto using appends_question.
Qed.

Lemma chapter_visit_order_witness :
  exists msgs',
    _extract_messages_chapter km_choices 2 (Some chapter_choices) [] = (Ok tt, msgs') /\
    msgs' =
      [] ++ chapter_title_message chapter_choices
      :: chapter_text_messages chapter_choices
      ++ flat_map (fun question_uuid =>
           emitted (_extract_messages_question km_choices 2
                      (questions (entities km_choices) !! question_uuid)))
           (question_uuids chapter_choices).
Proof.
  eexists. split; [vm_compute; reflexivity|].
  apply (chapter_visit_order km_choices 2 chapter_choices []).
  vm_compute. reflexivity.
Defined.

(** X2. A visit of an answer that returns has appended the label record, the
    advice record when the advice is non-empty, and then the records of its
    follow-up questions in the declared order. *)
Theorem answer_visit_order km fuel a msgs msgs' :
  _extract_messages_answer km fuel (Some a) msgs = (Ok tt, msgs') ->
  msgs' =
    msgs ++ answer_label_message a :: answer_advice_messages a
    ++ flat_map (fun question_uuid =>
         emitted (_extract_messages_question km fuel
                    (questions (entities km) !! question_uuid)))
         (follow_up_uuids a).
Proof.
  intros Hrun.
  assert (status (_extract_messages_answer km fuel (Some a)) = Ok tt /\
          msgs' = msgs ++ emitted (_extract_messages_answer km fuel (Some a)))
    as [Hok ->].
  { rewrite (appends_answer km fuel (Some a) msgs) in Hrun. split; congruence. }
  f_equal. revert Hok. unfold _extract_messages_answer, extract_messages_answer_body.
  change (node (Some a) "label") with (ret a). rewrite bind_ret. intros Hok.
  apply seq_ok in Hok as (_ & Hok & ->); [|visitor_appends..].
  apply seq_ok in Hok as (_ & Hok & ->); [|visitor_appends..].
  rewrite if_truthy_answer_advice, for_each_emitted; auto using appends_question.
Qed.

Lemma answer_visit_order_witness :
  exists msgs',
    _extract_messages_answer km_choices 1 (Some answer_no) [] = (Ok tt, msgs') /\
    msgs' =
      [] ++ answer_label_message answer_no :: answer_advice_messages answer_no
      ++ flat_map (fun question_uuid =>
           emitted (_extract_messages_question km_choices 1
                      (questions (entities km_choices) !! question_uuid)))
           (follow_up_uuids answer_no).
Proof.
  eexists. split; [vm_compute; reflexivity|].
  apply (answer_visit_order km_choices 1 answer_no []).
  vm_compute. reflexivity.
Defined.

(** X3. The reference visitor never fails, whatever the lookup gave.  For an
    absent reference and for one that is neither a URL nor a cross reference
    it appends nothing; otherwise the label record of a URL reference, then
    the description record of a cross reference, empty or not. *)
Theorem reference_visit reference msgs :
  _extract_messages_reference reference msgs
  = (Ok tt, msgs ++ reference_messages reference).
Proof.
  rewrite (appends_reference reference msgs), status_reference. do 2 f_equal.
  destruct reference as [r|]; [|done].
  unfold _extract_messages_reference, reference_messages, emitted. simpl.
  by destruct (as_url_reference r), (as_cross_reference r).
Qed.

(** X4. A question visitor only appends: the messages already in the list
    stay as they are, in front, and neither the outcome nor the records
    appended depend on them. *)
Theorem question_visit_appends km fuel question msgs :
  _extract_messages_question km fuel question msgs =
  ((_extract_messages_question km fuel question []).1,
   msgs ++ (_extract_messages_question km fuel question []).2).
Proof. apply (appends_question km fuel question msgs). Qed.

(** ** The shape of the extracted records *)

Lemma run_inv_if_truthy_nonempty PM PE value body :
  (forall s, s <> "" -> run_inv PM PE (body s)) ->
  @run_inv unit PM PE (if_truthy value body).
Proof.
  intros H. destruct value as [[|c s]|]; simpl; auto using @run_inv_ret.
Qed.

Lemma record_shape_intro m :
  (entity_type m, entity_attribute m) ∈ root_fields ->
  (entity_attribute m = "text" \/ entity_attribute m = "advice" -> msgid m <> "") ->
  record_shape m.
Proof. by split. Qed.

Ltac shape_side :=
  first [ exact I
        | apply record_shape_intro; simpl;
          [ unfold root_fields; rewrite !elem_of_cons; auto 15; fail
          | first [ by intros _ | intros [?|?]; discriminate ] ] ].

Ltac shape_step :=
  first [ assumption
        | apply run_inv_append | apply run_inv_node | apply run_inv_ret
        | apply run_inv_bind; [|intros ?]
        | apply run_inv_if_truthy_nonempty; intros ? ?
        | apply run_inv_if_instance; intros ?
        | apply run_inv_for_each; intros ? ].

Lemma shape_choice choice :
  run_inv record_shape (fun _ => True) (_extract_messages_choice choice).
Proof. unfold _extract_messages_choice. repeat shape_step; shape_side. Qed.

Lemma shape_reference reference :
  run_inv record_shape (fun _ => True) (_extract_messages_reference reference).
Proof.
  unfold _extract_messages_reference.
  destruct reference as [r|]; simpl;
    [destruct (as_url_reference r), (as_cross_reference r); simpl|];
    repeat shape_step; shape_side.
Qed.

Lemma shape_question km fuel question :
  run_inv record_shape (fun _ => True) (_extract_messages_question km fuel question).
Proof.
  revert question. induction fuel as [|fuel IH]; intros question; simpl.
  - apply run_inv_out_of_fuel.
  - unfold extract_messages_answer_body.
    repeat first [ apply IH | apply shape_choice | apply shape_reference | shape_step ];
      shape_side.
Qed.

Lemma shape_chapters km fuel :
  run_inv record_shape (fun _ => True) (extract_chapters km fuel).
Proof.
  unfold extract_chapters, _extract_messages_chapter.
  repeat first [ apply shape_question | shape_step ]; shape_side.
Qed.

(** X5. Every record that [extract_messages] leaves, on return and on failure
    alike, is of one of the nine fields of the visitors reached from the
    chapter list, and a record of a [text] or an [advice] never has an empty
    text: those fields are skipped when empty, while titles, labels and
    descriptions are recorded as they are. *)
Theorem extract_messages_record_shapes fuel self :
  Forall record_shape (self_messages (extract_messages fuel self).2).
Proof.
  unfold extract_messages. simpl.
  destruct (shape_chapters (self_km self) fuel [] (List.Forall_nil _)) as [Hall _].
  by destruct (extract_chapters (self_km self) fuel []).
Qed.

(** ** When the script writes a catalog *)

(** X6. The script hands a catalog to the writer exactly when every
    identifier of a chapter, question, choice and answer that the traversal
    meets is held by the registry and the questions nest less deep than the
    fuel; absent references do not matter.  Otherwise nothing is written. *)
Theorem main_writes_iff (it : Iteration) (now : datetime) fuel km :
  (exists catalog, main it now fuel km = Ok catalog) <-> chapters_within km fuel = true.
Proof.
  rewrite <- (extract_messages_returns fuel (__init__ km)). unfold main.
  destruct (extract_messages fuel (__init__ km)) as [[[]| |] self]; simpl.
  - split; [done | eauto].
  - split; [by intros [? ?] | done].
  - split; [by intros [? ?] | done].
Qed.

(** ** The visitor of resource collections *)

Lemma resource_page_visit p msgs :
  _extract_messages_resource_page (Some p) msgs
  = (Ok tt, msgs ++ resource_page_messages p).
Proof.
  unfold _extract_messages_resource_page, resource_page_messages.
  change (node (Some p) "title") with (ret p). rewrite bind_ret.
  destruct (resource_page_content p) as [[|ch s]|]; unfold bind, append; simpl;
    by rewrite <- ?app_assoc.
Qed.

Lemma resource_pages_visit km pages msgs :
  if forallb (page_resolved km) pages
  then for_each pages (fun rp_uuid =>
         _extract_messages_resource_page (resource_pages (entities km) !! rp_uuid)) msgs
       = (Ok tt,
          msgs ++ flat_map (fun rp_uuid =>
                    from_option resource_page_messages []
                      (resource_pages (entities km) !! rp_uuid)) pages)
  else (for_each pages (fun rp_uuid =>
          _extract_messages_resource_page (resource_pages (entities km) !! rp_uuid))
          msgs).1
       = Raise (AttributeError "NoneType" "title").
Proof.
  revert msgs. induction pages as [|rp_uuid pages IH]; intros msgs; simpl.
  - unfold ret. by rewrite app_nil_r.
  - unfold page_resolved at 1, bind.
    destruct (resource_pages (entities km) !! rp_uuid) as [p|] eqn:Hp.
    + rewrite bool_decide_eq_true_2 by by eexists. simpl.
      rewrite resource_page_visit. specialize (IH (msgs ++ resource_page_messages p)).
      destruct (forallb (page_resolved km) pages); [|done].
      by rewrite IH, <- app_assoc.
    + rewrite bool_decide_eq_false_2 by by intros [? ?]. done.
Qed.

(** X7. The visitor of a resource collection appends the title record and
    then the records of the pages in the declared order, and returns, when the
    registry holds every page; when a page is absent it fails with the
    [AttributeError] of reading [title] on [None]. *)
Theorem resource_collection_visit km rc msgs :
  if forallb (page_resolved km) (resource_page_uuids rc)
  then _extract_messages_resource_collection km (Some rc) msgs
       = (Ok tt,
          msgs ++ resource_collection_title_message rc
          :: flat_map (fun rp_uuid =>
               from_option resource_page_messages []
                 (resource_pages (entities km) !! rp_uuid))
               (resource_page_uuids rc))
  else (_extract_messages_resource_collection km (Some rc) msgs).1
       = Raise (AttributeError "NoneType" "title").
Proof.
  unfold _extract_messages_resource_collection.
  change (node (Some rc) "title") with (ret rc). rewrite bind_ret.
  unfold bind at 1, append.
  pose proof (resource_pages_visit km (resource_page_uuids rc)
                (msgs ++ [resource_collection_title_message rc])) as Hpages.
  destruct (forallb (page_resolved km) (resource_page_uuids rc)).
  - unfold resource_collection_title_message in *. rewrite Hpages.
    by rewrite <- app_assoc.
  - exact Hpages.
Qed.

(** ** More on the catalog *)

(** X8. The catalog has no entry exactly when every record of the input has
    an empty text; the empty input is one such case. *)
Theorem catalog_empty_iff (it : Iteration) (now : datetime) messages :
  catalog_messages (build_pot it now messages) = [] <->
  Forall (fun m => msgid m = "") messages.
Proof.
  rewrite Forall_forall. split.
  - intros Hnil m Hm. destruct (decide (msgid m = "")) as [|Hne]; [done|].
    assert (msgid m ∈ (catalog_messages (build_pot it now messages)).*1) as Hkey.
    { apply catalog_keys_elem_of. eauto. }
    rewrite Hnil in Hkey. by apply elem_of_nil in Hkey.
  - intros Hall.
    destruct (catalog_messages (build_pot it now messages)) as [|[t locs] rest] eqn:Hcat;
      [done|].
    assert (t ∈ (catalog_messages (build_pot it now messages)).*1) as Hkey.
    { rewrite Hcat. apply list_elem_of_here. }
    apply catalog_keys_elem_of in Hkey as (Hne & m & Hm & <-).
    by destruct Hne; apply Hall.
Qed.

(** X9. The catalog does not depend on the order of the records nor on how
    often a record occurs: two inputs with the same records give the same
    catalog. *)
Theorem build_pot_same_records (it : Iteration) (now : datetime) messages1 messages2 :
  (forall m, m ∈ messages1 <-> m ∈ messages2) ->
  build_pot it now messages1 = build_pot it now messages2.
Proof.
  intros Hsame. unfold build_pot.
  assert (group_locations messages1 = group_locations messages2) as ->; [|done].
  apply map_eq. intros t.
  pose proof (group_locations_is_Some messages1 t) as Hsome1.
  pose proof (group_locations_is_Some messages2 t) as Hsome2.
  pose proof (fun l => group_locations_elem_of messages1 t l) as Hin1.
  pose proof (fun l => group_locations_elem_of messages2 t l) as Hin2.
  assert (forall P : ExtractedMessage -> Prop,
            (exists m, m ∈ messages1 /\ P m) <-> (exists m, m ∈ messages2 /\ P m))
    as Hex.
  { intros P. split; intros (m & Hm & HP); exists m; split; try done; by apply Hsame. }
  destruct (group_locations messages1 !! t) as [s1|],
           (group_locations messages2 !! t) as [s2|]; simpl in *.
  - f_equal. apply set_eq. intros l. by rewrite Hin1, Hin2, Hex.
  - exfalso. apply (is_Some_None (A:=gset location)).
    destruct (proj1 Hsome1) as [Hne Hm]; [by eexists|].
    apply Hsome2. split; [done | by apply Hex].
  - exfalso. apply (is_Some_None (A:=gset location)).
    destruct (proj1 Hsome2) as [Hne Hm]; [by eexists|].
    apply Hsome1. split; [done | by apply Hex].
  - done.
Qed.

Lemma build_pot_same_records_witness :
  build_pot default_iteration 0 [message_yes_a; message_yes_b; message_yes_a]
  = build_pot default_iteration 0 [message_yes_b; message_yes_a].
Proof.
  apply build_pot_same_records. intros m.
  rewrite !elem_of_cons. tauto.
Defined.

(** X10. The catalog has at most as many entries as the input has records
    with a non-empty text. *)
Theorem catalog_size_bound (it : Iteration) (now : datetime) messages :
  (length (catalog_messages (build_pot it now messages))
   <= length (filter (fun m => msgid m <> "") messages))%nat.
Proof.
  rewrite <- (length_fmap fst (catalog_messages _)).
  rewrite <- (length_fmap msgid (filter _ messages)).
  apply submseteq_length, NoDup_submseteq; [apply catalog_keys_NoDup|].
  intros t (Hne & m & Hm & <-)%catalog_keys_elem_of.
  apply list_elem_of_fmap_2, list_elem_of_filter. done.
Qed.

(** ** Locations *)

Lemma append_colon_inj a b r s :
  no_colon a = true -> no_colon b = true ->
  a +:+ String ":"%char r = b +:+ String ":"%char s -> a = b /\ r = s.
Proof.
  revert b. induction a as [|x a IH]; intros [|y b]; simpl.
  - intros _ _ [= ->]. done.
  - intros _ [Hy _]%andb_true_iff [= <- _]. done.
  - intros [Hx _]%andb_true_iff _ [= -> _]. done.
  - intros [_ Ha]%andb_true_iff [_ Hb]%andb_true_iff [= -> Heq].
    destruct (IH b Ha Hb Heq) as [-> ->]. done.
Qed.

(** X11. The location string tells the field.  When the entity types and
    the identifiers hold no colon, as the literal types of the script and the
    text of a UUID do not, two records with the same path have the same
    entity type, identifier and attribute. *)
Theorem path_injective m1 m2 :
  no_colon (entity_type m1) = true -> no_colon (entity_uuid m1) = true ->
  no_colon (entity_type m2) = true -> no_colon (entity_uuid m2) = true ->
  path m1 = path m2 ->
  entity_type m1 = entity_type m2 /\
  entity_uuid m1 = entity_uuid m2 /\
  entity_attribute m1 = entity_attribute m2.
Proof.
  unfold path. intros Ht1 Hu1 Ht2 Hu2 Hpath.
  change (entity_type m1 +:+ String ":"%char
            (entity_uuid m1 +:+ String ":"%char (entity_attribute m1))
          = entity_type m2 +:+ String ":"%char
              (entity_uuid m2 +:+ String ":"%char (entity_attribute m2))) in Hpath.
  apply append_colon_inj in Hpath as [Htype Hrest]; [|done..].
  apply append_colon_inj in Hrest as [Huuid Hattr]; done.
Qed.

Lemma path_injective_witness :
  entity_type message_yes_a = entity_type message_choice_a /\
  entity_uuid message_yes_a = entity_uuid message_choice_a /\
  entity_attribute message_yes_a = entity_attribute message_choice_a.
Proof.
  apply (path_injective message_yes_a message_choice_a); reflexivity.
Defined.

(** The condition on the identifiers is needed: with a colon in one, two
    different fields share a path. *)
Lemma path_collision :
  path message_colon_1 = path message_colon_2 /\
  entity_uuid message_colon_1 <> entity_uuid message_colon_2.
Proof. split; [reflexivity | discriminate]. Qed.

(** ** Failing and endless traversals *)

Lemma for_each_app_ok {A} (xs ys : list A) (body : A -> M unit) msgs msgs' :
  for_each xs body msgs = (Ok tt, msgs') ->
  for_each (xs ++ ys) body msgs = for_each ys body msgs'.
Proof.
  revert msgs. induction xs as [|x xs IH]; intros msgs; simpl.
  - by intros [= ->].
  - unfold bind. destruct (body x msgs) as [[[]|e|] msgs1]; [apply IH | done | done].
Qed.

(** X12. The first chapter identifier that the registry does not hold stops
    [extract_messages]: when the chapters before it were visited without
    failure, the call fails with the [AttributeError] of reading [title] on
    [None], the list holds the records of those chapters and no more, and the
    chapters after it are not visited. *)
Theorem missing_chapter_aborts fuel self pre chapter_uuid post msgs' :
  chapter_uuids (self_km self) = pre ++ chapter_uuid :: post ->
  chapters (entities (self_km self)) !! chapter_uuid = None ->
  for_each pre (visit_chapter (self_km self) fuel) [] = (Ok tt, msgs') ->
  extract_messages fuel self =
  (Raise (AttributeError "NoneType" "title"),
   {| self_km := self_km self; self_messages := msgs' |}).
Proof.
  intros Hlist Hnone Hpre. unfold extract_messages. cbn [reset self_km self_messages].
  change (extract_chapters (self_km self) fuel)
    with (for_each (chapter_uuids (self_km self)) (visit_chapter (self_km self) fuel)).
  rewrite Hlist.
  rewrite (for_each_app_ok pre (chapter_uuid :: post) _ [] msgs' Hpre).
  cbn [for_each]. unfold visit_chapter at 1. by rewrite Hnone.
Qed.

Lemma missing_chapter_aborts_witness :
  exists msgs',
    for_each ["C1"] (visit_chapter km_missing_chapter 2) [] = (Ok tt, msgs') /\
    extract_messages 2 (__init__ km_missing_chapter) =
    (Raise (AttributeError "NoneType" "title"),
     {| self_km := km_missing_chapter; self_messages := msgs' |}).
Proof.
  eexists. split; [vm_compute; reflexivity|].
  apply (missing_chapter_aborts 2 (__init__ km_missing_chapter) ["C1"] "C9" ["C1"]).
  - reflexivity.
  - vm_compute. reflexivity.
  - vm_compute. reflexivity.
Defined.

Lemma status_run km fuel question msgs :
  (_extract_messages_question km fuel question msgs).1
  = status (_extract_messages_question km fuel question).
Proof. by rewrite (appends_question km fuel question msgs). Qed.

(** X13. A list question that names itself as its first item never lets the
    traversal end: whatever the fuel, the visit is still nested when the fuel
    is used up, and it neither returns nor fails with an error of its own. *)
Theorem self_nested_question_never_returns km fuel question_uuid q rest msgs :
  questions (entities km) !! question_uuid = Some q ->
  as_list_question q = Some (question_uuid :: rest) ->
  (_extract_messages_question km fuel (Some q) msgs).1 = OutOfFuel.
Proof.
  intros Hq Hitems. rewrite status_run. clear msgs.
  induction fuel as [|fuel IH]; [done|].
  rewrite question_unfold, Hitems. simpl default.
  rewrite status_seq; [|visitor_appends..|done].
  rewrite status_seq; [|visitor_appends..|apply status_if_truthy].
  match goal with
  | |- status (?m ;; ?k) = _ =>
      destruct (run_bind m (fun _ => k)) as [-> _];
        [visitor_appends | intros _; visitor_appends |]
  end.
  cbn [for_each].
  match goal with
  | |- context [status (?m ;; ?k)] =>
      destruct (run_bind m (fun _ => k)) as [-> _];
        [visitor_appends | intros _; visitor_appends |]
  end.
  by rewrite Hq, IH.
Qed.

Lemma self_nested_question_never_returns_witness :
  (_extract_messages_question km_loop 40 (Some question_loop) []).1 = OutOfFuel.
Proof.
  apply (self_nested_question_never_returns km_loop 40 "L" question_loop ["Q1"]).
  - vm_compute. reflexivity.
  - reflexivity.
Defined.

(** ** From the traversal to the catalog *)

(** X14. Every location of a catalog that the script writes is the path, with
    line 0, of a record that [extract_messages] extracted, of a chapter,
    question, choice, answer or reference field, whose text is the text of the
    entry; and no entry has the empty text. *)
Theorem written_locations_from_root (it : Iteration) (now : datetime) fuel km catalog :
  main it now fuel km = Ok catalog ->
  Forall (fun e =>
            e.1 <> "" /\
            Forall (fun l => exists m,
                      m ∈ self_messages (extract_messages fuel (__init__ km)).2 /\
                      from_root m /\ record_shape m /\
                      msgid m = e.1 /\ l = (path m, 0)) e.2)
    (catalog_messages catalog).
Proof.
  unfold main, extract_messages. simpl.
  destruct (run_inv_chapters km fuel [] (List.Forall_nil _)) as [Hroot _].
  destruct (shape_chapters km fuel [] (List.Forall_nil _)) as [Hshape _].
  destruct (extract_chapters km fuel []) as [[[]| |] msgs]; try done.
  simpl in *. intros [= <-].
  rewrite Forall_forall in Hroot, Hshape.
  apply Forall_forall. intros [t locs] Hentry. simpl. split.
  - assert (t ∈ (catalog_messages (build_pot it now msgs)).*1) as Hkey.
    { by apply (list_elem_of_fmap_2 fst) in Hentry. }
    by apply catalog_keys_elem_of in Hkey as [Hne _].
  - destruct (catalog_locations it now msgs t locs Hentry) as (Hmem & _).
    apply Forall_forall. intros l (m & Hm & Hid & ->)%Hmem.
    exists m. auto 6.
Qed.

Lemma written_locations_from_root_witness :
  exists catalog,
    main default_iteration 0 2 km_choices = Ok catalog /\
    Forall (fun e =>
              e.1 <> "" /\
              Forall (fun l => exists m,
                        m ∈ self_messages (extract_messages 2 (__init__ km_choices)).2 /\
                        from_root m /\ record_shape m /\
                        msgid m = e.1 /\ l = (path m, 0)) e.2)
      (catalog_messages catalog).
Proof.
  eexists. split; [vm_compute; reflexivity|].
  apply (written_locations_from_root default_iteration 0 2 km_choices).
  vm_compute. reflexivity.
Defined.
